(** * Invaders From Space, stage 3: game objects

    A shallow embedding of [src/stages/Stage 3/objects.py]: the classes
    [GameObject], [Bullet] and [Player], their methods, and the part of
    pyglet they talk to (sprites, the key state handler, the clock).

    Numbers.  Python mixes [int] and [float] here; positions, sizes, speeds
    and times are all embedded as exact rationals [Q], so [+], [*] and [/]
    are the exact operations ([/] is true division) and comparisons are the
    exact order.  Rounding of binary floating point is outside this model.

    References.  Python objects are shared by reference (a bound method
    handed to the clock keeps pointing at its object, the window's bullet
    list holds the very bullets that are updated), so instances live in a
    heap indexed by address and every method takes the address of [self]. *)

From Stdlib Require Import QArith Lqa List Bool Lia PeanoNat ZArith.
Import ListNotations.
Open Scope Q_scope.

(** ** Numbers *)

(** [a < b] on Python numbers, as a boolean. *)
Definition Qlt_bool (a b : Q) : bool := negb (Qle_bool b a).

(** ** pyglet: images, sprites, keys *)

(** A loaded image; only its pixel size matters to the game logic. *)
Record Image := mkImage { img_width : Q; img_height : Q }.

(** [pyglet.sprite.Sprite]: an image placed at an anchor point, with a
    scale factor that a fresh sprite has at 1. *)
Record Sprite := mkSprite {
  sprite_image : Image;
  sprite_x : Q;
  sprite_y : Q;
  sprite_scale : Q
}.

Definition new_Sprite (img : Image) (x y : Q) : Sprite :=
  mkSprite img x y 1.

(** [sprite.width] and [sprite.height]: the image size after scaling.
    pyglet cuts the product down to whole pixels for a sprite that is not
    subpixel; as with all numbers here, the exact product is kept. *)
Definition sprite_width (s : Sprite) : Q := img_width (sprite_image s) * sprite_scale s.
Definition sprite_height (s : Sprite) : Q := img_height (sprite_image s) * sprite_scale s.

Definition set_sprite_x (s : Sprite) (v : Q) : Sprite :=
  mkSprite (sprite_image s) v (sprite_y s) (sprite_scale s).
Definition set_sprite_y (s : Sprite) (v : Q) : Sprite :=
  mkSprite (sprite_image s) (sprite_x s) v (sprite_scale s).
Definition set_sprite_scale (s : Sprite) (v : Q) : Sprite :=
  mkSprite (sprite_image s) (sprite_x s) (sprite_y s) v.

(** Key symbols of [pyglet.window.key] are integers. *)
Definition key_LEFT : Z := 65361%Z.
Definition key_RIGHT : Z := 65363%Z.
Definition key_SPACE : Z := 32%Z.

(** [KeyStateHandler]: for each key symbol, whether it is held down. *)
Definition KeyStateHandler := Z -> bool.

(** ** Instances *)

(** Instance variables set by [GameObject.__init__]. *)
Record GameObject := mkGameObject {
  sprite : Sprite;
  exploded : bool;
  destroyed : bool
}.

Definition set_sprite (g : GameObject) (s : Sprite) : GameObject :=
  mkGameObject s (exploded g) (destroyed g).
Definition set_exploded (g : GameObject) (b : bool) : GameObject :=
  mkGameObject (sprite g) b (destroyed g).
Definition set_destroyed (g : GameObject) (b : bool) : GameObject :=
  mkGameObject (sprite g) (exploded g) b.

Inductive Class := GameObject_class | Bullet_class | Player_class.

(** An instance of one of the three classes.  A [Bullet] adds no instance
    variable; a [Player] adds [key_handler] and [cooldown] (its [window] is
    the one window of the game, whose bullet list is part of the world). *)
Inductive Instance :=
| IGameObject (g : GameObject)
| IBullet (g : GameObject)
| IPlayer (g : GameObject) (key_handler : KeyStateHandler) (cooldown : bool).

Definition class_of (i : Instance) : Class :=
  match i with
  | IGameObject _ => GameObject_class
  | IBullet _ => Bullet_class
  | IPlayer _ _ _ => Player_class
  end.

(** The inherited [GameObject] part of an instance. *)
Definition base (i : Instance) : GameObject :=
  match i with
  | IGameObject g => g
  | IBullet g => g
  | IPlayer g _ _ => g
  end.

Definition set_base (i : Instance) (g : GameObject) : Instance :=
  match i with
  | IGameObject _ => IGameObject g
  | IBullet _ => IBullet g
  | IPlayer _ k c => IPlayer g k c
  end.

Definition is_player (i : Instance) : bool :=
  match i with IPlayer _ _ _ => true | _ => false end.

Definition cooldown_of (i : Instance) : bool :=
  match i with IPlayer _ _ c => c | _ => false end.

(** ** The world: heap, clock, window *)

Definition addr := nat.

(** What the program hands to [pyglet.clock.schedule_once]: always a bound
    method, [self.destroy] or [self.end_cooldown]. *)
Inductive Callback :=
| destroy_cb (self : addr)
| end_cooldown_cb (self : addr).

Record World := mkWorld {
  clock_now : Q;                          (* simulated time of the last tick *)
  clock_items : list (Q * Callback);      (* scheduled once, not yet fired *)
  heap : list Instance;
  window_bullets : list addr              (* window.bullets *)
}.

(** Replace the element at index [n]; the list is unchanged out of range. *)
Fixpoint list_set {A} (l : list A) (n : nat) (v : A) : list A :=
  match l, n with
  | [], _ => []
  | _ :: t, O => v :: t
  | h :: t, S n' => h :: list_set t n' v
  end.

(** ** A state and error monad over the world

    [None] stands for the Python exception raised when a method is looked
    up on an object that does not have it (or on no object at all). *)

Definition M (A : Type) : Type := World -> option (A * World).

Definition ret {A} (a : A) : M A := fun w => Some (a, w).

Definition bind {A B} (m : M A) (f : A -> M B) : M B :=
  fun w => match m w with
           | Some (a, w') => f a w'
           | None => None
           end.

Definition raise {A} : M A := fun _ => None.

Declare Scope game_scope.
Delimit Scope game_scope with game.
Notation "x <- m ;; k" := (bind m (fun x => k))
  (at level 61, m at next level, right associativity) : game_scope.
Notation "m ;;; k" := (bind m (fun _ => k))
  (at level 61, right associativity) : game_scope.
Open Scope game_scope.

Definition load (a : addr) : M Instance :=
  fun w => match nth_error (heap w) a with
           | Some i => Some (i, w)
           | None => None
           end.

Definition store (a : addr) (i : Instance) : M unit :=
  fun w => match nth_error (heap w) a with
           | Some _ =>
               Some (tt, mkWorld (clock_now w) (clock_items w)
                                 (list_set (heap w) a i) (window_bullets w))
           | None => None
           end.

(** A new instance goes to the end of the heap; its address is returned. *)
Definition alloc (i : Instance) : M addr :=
  fun w => Some (length (heap w),
                 mkWorld (clock_now w) (clock_items w)
                         (heap w ++ [i]) (window_bullets w)).

(** Attribute access through the [GameObject] part of any instance. *)
Definition load_obj (a : addr) : M GameObject :=
  i <- load a ;; ret (base i).

Definition store_obj (a : addr) (g : GameObject) : M unit :=
  i <- load a ;; store a (set_base i g).

(** [window.bullets.append(b)]. *)
Definition bullets_append (b : addr) : M unit :=
  fun w => Some (tt, mkWorld (clock_now w) (clock_items w)
                             (heap w) (window_bullets w ++ [b])).

(** Modelled from the spec: [pyglet.clock.schedule_once(func, delay)], the
    scheduling facility of the external library.  The callback is
    registered against the simulation clock and becomes due [delay]
    seconds after the time of the current tick. *)
Definition schedule_once (cb : Callback) (delay : Q) : M unit :=
  fun w => Some (tt, mkWorld (clock_now w)
                             (clock_items w ++ [(clock_now w + delay, cb)])
                             (heap w) (window_bullets w)).

(** ** The classes *)

Section Game.

(** The three image files loaded by [pyglet.resource.image]. *)
Variable player_png : Image.
Variable bullet_png : Image.
Variable explosion_png : Image.

(** Class variables, resolved along the inheritance chain. *)
Definition image (c : Class) : Image :=
  match c with
  | GameObject_class => player_png
  | Bullet_class => bullet_png
  | Player_class => player_png
  end.

Definition explosion_image (c : Class) : Image := explosion_png.

Definition scale (c : Class) : Q :=
  match c with
  | Bullet_class => 0.2
  | _ => 1
  end.

Definition explosion_time (c : Class) : Q := 0.2.

Definition Bullet_speed : Q := 180.
Definition Player_speed : Q := 150.
Definition cooldown_time : Q := 0.5.

Definition left_key : Z := key_LEFT.
Definition right_key : Z := key_RIGHT.
Definition fire_key : Z := key_SPACE.

(** *** GameObject *)

(** [GameObject.__init__(self, x_pos, y_pos)] for an instance of class [c]. *)
Definition GameObject_init (c : Class) (x_pos y_pos : Q) : GameObject :=
  let s := new_Sprite (image c) x_pos y_pos in
  let s := set_sprite_scale s (scale c) in
  mkGameObject s false false.

Definition has_hit (self other_object : addr) : M bool :=
  s <- load_obj self ;;
  o <- load_obj other_object ;;
  if Qlt_bool (sprite_x (sprite o)) (sprite_x (sprite s))
     && Qlt_bool (sprite_x (sprite s))
                 (sprite_x (sprite o) + sprite_width (sprite o))
  then
    if Qlt_bool (sprite_y (sprite o)) (sprite_y (sprite s))
       && Qlt_bool (sprite_y (sprite s))
                   (sprite_y (sprite o) + sprite_height (sprite o))
    then ret true
    else ret false
  else ret false.

(** [draw] hands the sprite to the renderer, which is not part of the
    world modelled here. *)
Definition draw (self : addr) : M unit :=
  _ <- load_obj self ;; ret tt.

(** [destroy(self, elapsed_time=None)]; the argument is not used. *)
Definition destroy (self : addr) : M unit :=
  g <- load_obj self ;;
  store_obj self (set_destroyed g true).

Definition explode (self : addr) : M unit :=
  i <- load self ;;
  let g := set_exploded (base i) true in
  let g := set_sprite g (new_Sprite (explosion_image (class_of i))
                                    (sprite_x (sprite g))
                                    (sprite_y (sprite g))) in
  store_obj self g ;;;
  schedule_once (destroy_cb self) (explosion_time (class_of i)).

(** *** Bullet *)

(** [Bullet(x_pos)]: allocates the bullet and returns its address. *)
Definition Bullet_init (x_pos : Q) : M addr :=
  alloc (IBullet
           (GameObject_init Bullet_class x_pos
              (img_height (image Player_class)
               + img_height (image Bullet_class) * scale Bullet_class))).

Definition Bullet_update (self : addr) (elapsed_time : Q) : M unit :=
  i <- load self ;;
  match i with
  | IBullet g =>
      store self
        (IBullet (set_sprite g
                    (set_sprite_y (sprite g)
                       (sprite_y (sprite g) + Bullet_speed * elapsed_time))))
  | _ => raise
  end.

(** *** Player *)

(** [Player(window)]: starts at (20, 20), no key held, cooldown off. *)
Definition Player_init : M addr :=
  alloc (IPlayer (GameObject_init Player_class 20 20) (fun _ => false) false).

Definition move (self : addr) (speed elapsed_time : Q) : M unit :=
  i <- load self ;;
  match i with
  | IPlayer g k c =>
      store self
        (IPlayer (set_sprite g
                    (set_sprite_x (sprite g)
                       (sprite_x (sprite g) + speed * elapsed_time))) k c)
  | _ => raise
  end.

(** [end_cooldown(self, elapsed_time=None)]; the argument is not used. *)
Definition end_cooldown (self : addr) : M unit :=
  i <- load self ;;
  match i with
  | IPlayer g k _ => store self (IPlayer g k false)
  | _ => raise
  end.

Definition set_cooldown (self : addr) (c : bool) : M unit :=
  i <- load self ;;
  match i with
  | IPlayer g k _ => store self (IPlayer g k c)
  | _ => raise
  end.

Definition fire (self : addr) : M unit :=
  i <- load self ;;
  match i with
  | IPlayer g _ _ =>
      b <- Bullet_init (sprite_x (sprite g) + sprite_width (sprite g) / 2) ;;
      bullets_append b
  | _ => raise
  end.

Definition Player_update (self : addr) (elapsed_time : Q) : M unit :=
  i <- load self ;;
  match i with
  | IPlayer _ key_handler _ =>
      (if key_handler left_key && negb (key_handler right_key)
       then move self (- Player_speed) elapsed_time
       else if key_handler right_key && negb (key_handler left_key)
       then move self Player_speed elapsed_time
       else ret tt) ;;;
      i <- load self ;;
      if key_handler fire_key && negb (cooldown_of i)
      then
        fire self ;;;
        set_cooldown self true ;;;
        schedule_once (end_cooldown_cb self) cooldown_time
      else ret tt
  | _ => raise
  end.

(** The keyboard handler of a player is written by window events. *)
Definition set_keys (self : addr) (k : KeyStateHandler) : M unit :=
  i <- load self ;;
  match i with
  | IPlayer g _ c => store self (IPlayer g k c)
  | _ => raise
  end.

(** ** The clock *)

Definition run_callback (cb : Callback) : M unit :=
  match cb with
  | destroy_cb a => destroy a
  | end_cooldown_cb a => end_cooldown a
  end.

Fixpoint run_callbacks (cbs : list (Q * Callback)) : M unit :=
  match cbs with
  | [] => ret tt
  | (_, cb) :: rest => run_callback cb ;;; run_callbacks rest
  end.

Definition is_due (t : Q) (item : Q * Callback) : bool := Qle_bool (fst item) t.

(** Modelled from the spec: one tick of the pyglet clock, the external
    scheduler.  Simulated time advances by [dt]; every callback whose
    delay has elapsed is taken off the schedule and run inline, in the
    order it was scheduled; the others stay.  A callback fires once. *)
Definition clock_tick (dt : Q) : M unit :=
  fun w =>
    let t := clock_now w + dt in
    run_callbacks (filter (is_due t) (clock_items w))
      (mkWorld t (filter (fun it => negb (is_due t it)) (clock_items w))
               (heap w) (window_bullets w)).

(** ** Everything that can happen to a world *)

Inductive Event :=
| EvTick (dt : Q)
| EvKeys (p : addr) (k : KeyStateHandler)
| EvNewObject (x_pos y_pos : Q)
| EvNewBullet (x_pos : Q)
| EvNewPlayer
| EvHasHit (a b : addr)
| EvDraw (a : addr)
| EvDestroy (a : addr)
| EvExplode (a : addr)
| EvBulletUpdate (a : addr) (dt : Q)
| EvPlayerUpdate (a : addr) (dt : Q)
| EvMove (a : addr) (speed dt : Q)
| EvEndCooldown (a : addr)
| EvFire (a : addr).

Definition run_event (e : Event) : M unit :=
  match e with
  | EvTick dt => clock_tick dt
  | EvKeys p k => set_keys p k
  | EvNewObject x_pos y_pos =>
      _ <- alloc (IGameObject (GameObject_init GameObject_class x_pos y_pos)) ;; ret tt
  | EvNewBullet x_pos => _ <- Bullet_init x_pos ;; ret tt
  | EvNewPlayer => _ <- Player_init ;; ret tt
  | EvHasHit a b => _ <- has_hit a b ;; ret tt
  | EvDraw a => draw a
  | EvDestroy a => destroy a
  | EvExplode a => explode a
  | EvBulletUpdate a dt => Bullet_update a dt
  | EvPlayerUpdate a dt => Player_update a dt
  | EvMove a speed dt => move a speed dt
  | EvEndCooldown a => end_cooldown a
  | EvFire a => fire a
  end.

Fixpoint run_events (es : list Event) : M unit :=
  match es with
  | [] => ret tt
  | e :: rest => run_event e ;;; run_events rest
  end.

(** ** Notions used in the statements *)

(** The object stored at an address, if any. *)
Definition lookup (w : World) (a : addr) : option Instance := nth_error (heap w) a.

Definition with_heap (w : World) (h : list Instance) : World :=
  mkWorld (clock_now w) (clock_items w) h (window_bullets w).

(** Flags of the object at an address ([false] where there is none). *)
Definition exploded_at (w : World) (a : addr) : bool :=
  match lookup w a with Some i => exploded (base i) | None => false end.
Definition destroyed_at (w : World) (a : addr) : bool :=
  match lookup w a with Some i => destroyed (base i) | None => false end.
Definition cooldown_at (w : World) (a : addr) : bool :=
  match lookup w a with Some i => cooldown_of i | None => false end.

(** The boolean computed by [has_hit] from the two objects it reads. *)
Definition inside (s o : GameObject) : Prop :=
  (sprite_x (sprite o) < sprite_x (sprite s)
   /\ sprite_x (sprite s) < sprite_x (sprite o) + sprite_width (sprite o))
  /\ (sprite_y (sprite o) < sprite_y (sprite s)
      /\ sprite_y (sprite s) < sprite_y (sprite o) + sprite_height (sprite o)).

(** Scheduled callbacks that belong to one object. *)
Definition is_end_cooldown_of (p : addr) (it : Q * Callback) : bool :=
  match snd it with end_cooldown_cb a => Nat.eqb a p | _ => false end.
Definition is_destroy_of (a : addr) (it : Q * Callback) : bool :=
  match snd it with destroy_cb b => Nat.eqb b a | _ => false end.
Definition pending_end_cooldown (p : addr) (items : list (Q * Callback)) : nat :=
  length (filter (is_end_cooldown_of p) items).

(** What holds of every world the game can reach when [end_cooldown] is
    left to the clock: a player is on cooldown exactly while one
    [end_cooldown] of its own is scheduled, and a scheduled [destroy]
    belongs to an object that has exploded. *)
Definition wf (w : World) : Prop :=
  (forall p, pending_end_cooldown p (clock_items w)
             = (if cooldown_at w p then 1 else 0)%nat)
  /\ (forall a t, In (t, destroy_cb a) (clock_items w) -> exploded_at w a = true).

(** The world before anything was constructed or scheduled. *)
Definition empty_world : World := mkWorld 0 [] [] [].

(** Events in which [end_cooldown] is never called by hand. *)
Definition clock_driven (e : Event) : bool :=
  match e with
  | EvEndCooldown _ => false
  | _ => true
  end.

(** Time does not run backwards. *)
Definition forward (e : Event) : bool :=
  match e with
  | EvTick dt => Qle_bool 0 dt
  | _ => true
  end.

(** What the game loop does around the one player [p] of the window:
    ticks, key events, updates, collision tests, draws, explosions,
    destructions and constructions.  [fire] and [end_cooldown] are reached
    only through [Player.update] and the clock. *)
Definition game_loop_event (p : addr) (e : Event) : bool :=
  match e with
  | EvTick dt => Qle_bool 0 dt
  | EvPlayerUpdate q _ => Nat.eqb q p
  | EvEndCooldown _ => false
  | EvFire _ => false
  | _ => true
  end.

(** As long as nobody calls [destroy] on [a] by hand. *)
Definition leaves_destroy_to_clock (a : addr) (e : Event) : bool :=
  match e with
  | EvTick dt => Qle_bool 0 dt
  | EvDestroy b => negb (Nat.eqb b a)
  | _ => true
  end.

(** Modelled from the spec: one frame of the game loop of the stage 3
    window, which is not among the sources.  The clock ticks, firing what
    is due, then the window updates its player with the elapsed time. *)
Definition frame (p : addr) (dt : Q) : list Event :=
  [EvTick dt; EvPlayerUpdate p dt].

Definition frames (p : addr) (dts : list Q) : list Event :=
  flat_map (frame p) dts.

(** Consecutive updates of one bullet. *)
Definition Bullet_updates (a : addr) (dts : list Q) : list Event :=
  map (EvBulletUpdate a) dts.

(** The object after [move]: only the x coordinate of the sprite changes. *)
Definition moved (g : GameObject) (speed dt : Q) : GameObject :=
  set_sprite g (set_sprite_x (sprite g) (sprite_x (sprite g) + speed * dt)).

(** The object after the movement half of [Player.update]. *)
Definition steered (k : KeyStateHandler) (g : GameObject) (dt : Q) : GameObject :=
  if k left_key && negb (k right_key) then moved g (- Player_speed) dt
  else if k right_key && negb (k left_key) then moved g Player_speed dt
  else g.

(** The bullet built by [fire] for a player whose base object is [g]. *)
Definition bullet_of (g : GameObject) : GameObject :=
  GameObject_init Bullet_class
    (sprite_x (sprite g) + sprite_width (sprite g) / 2)
    (img_height (image Player_class)
     + img_height (image Bullet_class) * scale Bullet_class).

(** The object after [explode]. *)
Definition blown_up (c : Class) (g : GameObject) : GameObject :=
  mkGameObject (new_Sprite (explosion_image c) (sprite_x (sprite g)) (sprite_y (sprite g)))
               true (destroyed g).

(** *** The effect of an event on one object

    What a scheduled callback, and then any event, makes of the instance
    [i] stored at address [b]. *)

Definition after_callback (cb : Callback) (b : addr) (i : Instance) : Instance :=
  match cb with
  | destroy_cb a =>
      if Nat.eqb a b then set_base i (set_destroyed (base i) true) else i
  | end_cooldown_cb a =>
      if Nat.eqb a b
      then match i with IPlayer g k _ => IPlayer g k false | _ => i end
      else i
  end.

Definition after_callbacks (cbs : list (Q * Callback)) (b : addr) (i : Instance) : Instance :=
  fold_left (fun j it => after_callback (snd it) b j) cbs i.

Definition after_event (e : Event) (w : World) (b : addr) (i : Instance) : Instance :=
  match e with
  | EvTick dt =>
      after_callbacks (filter (is_due (clock_now w + dt)) (clock_items w)) b i
  | EvKeys p k' =>
      if Nat.eqb p b
      then match i with IPlayer g _ c => IPlayer g k' c | _ => i end
      else i
  | EvDestroy a => after_callback (destroy_cb a) b i
  | EvExplode a =>
      if Nat.eqb a b then set_base i (blown_up (class_of i) (base i)) else i
  | EvBulletUpdate a dt =>
      if Nat.eqb a b
      then match i with
           | IBullet g =>
               IBullet (set_sprite g
                          (set_sprite_y (sprite g)
                             (sprite_y (sprite g) + Bullet_speed * dt)))
           | _ => i
           end
      else i
  | EvPlayerUpdate a dt =>
      if Nat.eqb a b
      then match i with
           | IPlayer g k c =>
               IPlayer (steered k g dt) k (if k fire_key && negb c then true else c)
           | _ => i
           end
      else i
  | EvMove a speed dt =>
      if Nat.eqb a b
      then match i with IPlayer g k c => IPlayer (moved g speed dt) k c | _ => i end
      else i
  | EvEndCooldown a => after_callback (end_cooldown_cb a) b i
  | _ => i
  end.

(** Whether [Player.update] on [a] goes through its firing branch. *)
Definition fires (w : World) (a : addr) : bool :=
  match lookup w a with
  | Some (IPlayer _ k c) => k fire_key && negb c
  | _ => false
  end.

(** The schedule, the time and the bullet list after an event. *)
Definition items_after (e : Event) (w : World) : list (Q * Callback) :=
  match e with
  | EvTick dt =>
      filter (fun it => negb (is_due (clock_now w + dt) it)) (clock_items w)
  | EvExplode a =>
      clock_items w ++ [(clock_now w + explosion_time GameObject_class, destroy_cb a)]
  | EvPlayerUpdate a _ =>
      if fires w a
      then clock_items w ++ [(clock_now w + cooldown_time, end_cooldown_cb a)]
      else clock_items w
  | _ => clock_items w
  end.

Definition now_after (e : Event) (w : World) : Q :=
  match e with
  | EvTick dt => clock_now w + dt
  | _ => clock_now w
  end.

Definition bullets_after (e : Event) (w : World) : list addr :=
  match e with
  | EvPlayerUpdate a _ =>
      if fires w a then window_bullets w ++ [length (heap w)] else window_bullets w
  | EvFire _ => window_bullets w ++ [length (heap w)]
  | _ => window_bullets w
  end.

(** Same class, and no flag that was up is down. *)
Definition grown (i i' : Instance) : Prop :=
  class_of i' = class_of i
  /\ (exploded (base i) = true -> exploded (base i') = true)
  /\ (destroyed (base i) = true -> destroyed (base i') = true).

(** Whether an event is a call of [explode] on the object at [a]. *)
Definition is_explode_of (a : addr) (e : Event) : bool :=
  match e with
  | EvExplode b => Nat.eqb b a
  | _ => false
  end.

(** Same image and same scale factor, hence same width and height. *)
Definition same_size (i i' : Instance) : Prop :=
  sprite_image (sprite (base i')) = sprite_image (sprite (base i))
  /\ sprite_scale (sprite (base i')) = sprite_scale (sprite (base i)).

(** The player [p] is on cooldown until time [D] at least, and the
    bullet list is [B]. *)
Definition cooling (p : addr) (D : Q) (B : list addr) (w : World) : Prop :=
  cooldown_at w p = true
  /\ (forall t, In (t, end_cooldown_cb p) (clock_items w) -> D <= t)
  /\ window_bullets w = B.

(** The object [a] exploded at time [T] and is destroyed from time [D]
    on, by the [destroy] that is scheduled for [D]. *)
Definition exploding (a : addr) (T D : Q) (w : World) : Prop :=
  T <= clock_now w
  /\ lookup w a <> None
  /\ ((clock_now w < D
       /\ destroyed_at w a = false
       /\ In (D, destroy_cb a) (clock_items w)
       /\ (forall t, In (t, destroy_cb a) (clock_items w) -> D <= t))
      \/ (D <= clock_now w /\ destroyed_at w a = true)).

(** A callback can run when its object is there (and is a player, for
    [end_cooldown]). *)
Definition runnable (w : World) (cb : Callback) : Prop :=
  match cb with
  | destroy_cb a => exists i, lookup w a = Some i
  | end_cooldown_cb a => exists i, lookup w a = Some i /\ class_of i = Player_class
  end.

(** A run of clock ticks. *)
Definition ticks (dts : list Q) : list Event := map EvTick dts.

(** *** Concrete scenes

    Images of 40x30 (player), 10x50 (bullet) and 64x64 (explosion), and
    small worlds over them, on which the statements below are run. *)

Definition demo_player_png : Image := mkImage 40 30.
Definition demo_bullet_png : Image := mkImage 10 50.
Definition demo_explosion_png : Image := mkImage 64 64.
Definition demo_box_png : Image := mkImage 10 10.

Definition demo_object (img : Image) (x y : Q) : GameObject :=
  mkGameObject (mkSprite img x y 1) false false.

(** Four plain objects: anchors at (5,5), (0,0), (10,5) and (30,5); the
    second one is a 10x10 box at the origin. *)
Definition hit_world : World :=
  mkWorld 0 []
    [IGameObject (demo_object demo_box_png 5 5);
     IGameObject (demo_object demo_box_png 0 0);
     IGameObject (demo_object demo_box_png 10 5);
     IGameObject (demo_object demo_box_png 30 5)]
    [].

(** Left arrow and space bar held. *)
Definition demo_keys : KeyStateHandler :=
  fun key => Z.eqb key key_LEFT || Z.eqb key key_SPACE.

(** Both arrows held. *)
Definition both_arrows : KeyStateHandler :=
  fun key => Z.eqb key key_LEFT || Z.eqb key key_RIGHT.

(** A player of width 40 at (100, 20), ready to fire. *)
Definition player_world : World :=
  mkWorld 0 [] [IPlayer (demo_object demo_player_png 100 20) demo_keys false] [].

Definition player_world_2 : World :=
  mkWorld 0 [] [IPlayer (demo_object demo_player_png 7 300) both_arrows true] [].

(** A bullet in flight, far above any screen. *)
Definition bullet_world : World :=
  mkWorld 0 []
    [IBullet (mkGameObject (mkSprite demo_bullet_png 120 100000 0.2) false false)]
    [].

(** *** Further notions *)

(** Total elapsed time of a run of updates. *)
Definition Qsum (dts : list Q) : Q := fold_right Qplus 0 dts.

(** The window's bullet list names each bullet once, and names bullets only. *)
Definition bullets_ok (w : World) : Prop :=
  NoDup (window_bullets w)
  /\ forall b, In b (window_bullets w) -> exists g, lookup w b = Some (IBullet g).

(** Events while the player [p] is not updated: time passes, anything else
    may happen. *)
Definition waits (p : addr) (e : Event) : bool :=
  match e with
  | EvTick dt => Qle_bool 0 dt
  | EvPlayerUpdate q _ => negb (Nat.eqb q p)
  | _ => true
  end.

(** Either the release of [p] is still ahead, scheduled for [D], or [p] is
    off cooldown. *)
Definition released (p : addr) (D : Q) (w : World) : Prop :=
  (clock_now w < D /\ In (D, end_cooldown_cb p) (clock_items w))
  \/ cooldown_at w p = false.

(** The [destroy] of [a] that is scheduled for [D] is still ahead, or [a]
    is destroyed. *)
Definition doomed (a : addr) (D : Q) (w : World) : Prop :=
  (clock_now w < D /\ In (D, destroy_cb a) (clock_items w))
  \/ destroyed_at w a = true.

(** A bullet at (120, 40) and a 10x10 box at the origin. *)
Definition shoot_world : World :=
  mkWorld 0 []
    [IBullet (mkGameObject (mkSprite demo_bullet_png 120 40 0.2) false false);
     IGameObject (demo_object demo_box_png 0 0)]
    [].

(** An object at (5,5) and a target at the origin scaled down to nothing. *)
Definition flat_world : World :=
  mkWorld 0 []
    [IGameObject (demo_object demo_box_png 5 5);
     IGameObject (mkGameObject (mkSprite demo_box_png 0 0 0) false false)]
    [].

(** ** Basic facts about the model *)

Lemma Qlt_bool_iff (a b : Q) : Qlt_bool a b = true <-> a < b.
Proof.
  unfold Qlt_bool. rewrite negb_true_iff.
  split; intro H.
  - apply Qnot_le_lt. intro Hle. apply Qle_bool_iff in Hle. congruence.
  - destruct (Qle_bool b a) eqn:E; [|reflexivity].
    apply Qle_bool_iff in E. exfalso. exact (Qlt_not_le _ _ H E).
Qed.

Lemma length_list_set {A} (l : list A) n v : length (list_set l n v) = length l.
Proof.
  revert n. induction l as [|h t IH]; intros [|n]; simpl; auto.
Qed.

Lemma nth_error_list_set_eq {A} (l : list A) n v :
  (n < length l)%nat -> nth_error (list_set l n v) n = Some v.
Proof.
  revert n. induction l as [|h t IH]; intros [|n] H; simpl in *; try lia; auto.
  apply IH. lia.
Qed.

Lemma nth_error_list_set_ne {A} (l : list A) n m v :
  n <> m -> nth_error (list_set l n v) m = nth_error l m.
Proof.
  revert n m. induction l as [|h t IH]; intros [|n] [|m] H; simpl; auto; try congruence.
Qed.

Lemma nth_error_list_set {A} (l : list A) n m v x :
  nth_error l m = Some x ->
  nth_error (list_set l n v) m = Some (if Nat.eq_dec n m then v else x).
Proof.
  intros H. destruct (Nat.eq_dec n m) as [->|Hne].
  - apply nth_error_list_set_eq. apply nth_error_Some. congruence.
  - rewrite nth_error_list_set_ne; auto.
Qed.

Lemma list_set_same {A} (l : list A) n v :
  nth_error l n = Some v -> list_set l n v = l.
Proof.
  revert n. induction l as [|h t IH]; intros [|n] H; simpl in *; try congruence.
  f_equal. auto.
Qed.

Lemma load_Some w a i : lookup w a = Some i -> load a w = Some (i, w).
Proof. unfold lookup, load. intros ->. reflexivity. Qed.

Lemma load_inv w a i w' : load a w = Some (i, w') -> lookup w a = Some i /\ w' = w.
Proof.
  unfold lookup, load. destruct (nth_error (heap w) a); intros H; inversion H; auto.
Qed.

Lemma store_Some w a i0 i :
  lookup w a = Some i0 ->
  store a i w = Some (tt, mkWorld (clock_now w) (clock_items w)
                                  (list_set (heap w) a i) (window_bullets w)).
Proof. unfold lookup, store. intros ->. reflexivity. Qed.

(** Unfolds the monad in hypotheses and goal and splits on every heap access. *)
Ltac monad_simpl :=
  repeat match goal with
  | H : bind _ _ _ = Some _ |- _ => unfold bind at 1 in H
  | H : ret _ _ = Some _ |- _ => unfold ret in H; inversion H; subst; clear H
  | H : raise _ = Some _ |- _ => discriminate H
  | H : None = Some _ |- _ => discriminate H
  | H : match ?m ?w with Some _ => _ | None => _ end = Some _ |- _ =>
      let E := fresh "E" in destruct (m w) as [[? ?]|] eqn:E; [|discriminate H]
  | H : load _ _ = Some _ |- _ =>
      apply load_inv in H; destruct H as [H ?]; subst
  | H : load_obj _ _ = Some _ |- _ => unfold load_obj in H
  end.

(** ** Collision test *)

Lemma has_hit_run w a b ia ib :
  lookup w a = Some ia -> lookup w b = Some ib ->
  exists r, has_hit a b w = Some (r, w) /\ (r = true <-> inside (base ia) (base ib)).
Proof.
  intros Ha Hb. unfold has_hit, load_obj, bind.
  rewrite (load_Some _ _ _ Ha). unfold ret at 1.
  rewrite (load_Some _ _ _ Hb). unfold ret at 1.
  unfold inside.
  destruct (Qlt_bool (sprite_x (sprite (base ib))) (sprite_x (sprite (base ia)))) eqn:X1;
  destruct (Qlt_bool (sprite_x (sprite (base ia)))
              (sprite_x (sprite (base ib)) + sprite_width (sprite (base ib)))) eqn:X2;
  destruct (Qlt_bool (sprite_y (sprite (base ib))) (sprite_y (sprite (base ia)))) eqn:Y1;
  destruct (Qlt_bool (sprite_y (sprite (base ia)))
              (sprite_y (sprite (base ib)) + sprite_height (sprite (base ib)))) eqn:Y2;
  simpl; unfold ret; eexists; (split; [reflexivity|]);
  rewrite <- !Qlt_bool_iff, ?X1, ?X2, ?Y1, ?Y2; intuition congruence.
Qed.

(** C1.  For two objects A and B of the heap, [A.has_hit(B)] returns, and
    returns [True] exactly when the anchor of A is strictly inside the
    rectangle of B: [B.x < A.x < B.x + B.width] and
    [B.y < A.y < B.y + B.height].  An anchor on the right or the top edge,
    or on the left or the bottom one, gives [False]. *)
Theorem has_hit_strictly_inside (w : World) (a b : addr) (ia ib : Instance) :
  lookup w a = Some ia ->
  lookup w b = Some ib ->
  let A := sprite (base ia) in
  let B := sprite (base ib) in
  exists r w',
    has_hit a b w = Some (r, w')
    /\ (r = true <->
        (sprite_x B < sprite_x A /\ sprite_x A < sprite_x B + sprite_width B)
        /\ (sprite_y B < sprite_y A /\ sprite_y A < sprite_y B + sprite_height B))
    /\ (sprite_x A == sprite_x B \/ sprite_x A == sprite_x B + sprite_width B
        \/ sprite_y A == sprite_y B \/ sprite_y A == sprite_y B + sprite_height B
        -> r = false).
Proof.
  intros Ha Hb A B.
  destruct (has_hit_run w a b ia ib Ha Hb) as [r [Hr Hiff]].
  exists r, w. split; [exact Hr|]. split; [exact Hiff|].
  intros Hedge. destruct r; [|reflexivity].
  exfalso. destruct Hiff as [Hin _]. specialize (Hin eq_refl).
  unfold inside in Hin. fold A B in Hin.
  destruct Hin as [[H1 H2] [H3 H4]].
  destruct Hedge as [E|[E|[E|E]]]; rewrite E in *;
    eapply Qlt_irrefl; eassumption.
Qed.

(** [has_hit] only reads: it hands back the world it was given, and its
    result is a function of the two objects it looked up. *)
Lemma has_hit_reads w a b r w' :
  has_hit a b w = Some (r, w') ->
  w' = w
  /\ (forall w2, lookup w2 a = lookup w a -> lookup w2 b = lookup w b ->
                 has_hit a b w2 = Some (r, w2)).
Proof.
  intros H.
  assert (Hdet : forall w2, lookup w2 a = lookup w a -> lookup w2 b = lookup w b ->
                            has_hit a b w2 = Some (r, w2) /\ w' = w).
  { intros w2 Ea Eb. unfold lookup in Ea, Eb.
    cbv beta delta [has_hit load_obj bind load ret] in *.
    destruct (nth_error (heap w) a) as [ia|]; [|discriminate].
    rewrite Ea. cbv beta iota in *.
    destruct (nth_error (heap w) b) as [ib|]; [|discriminate].
    rewrite Eb. cbv beta iota in *.
    destruct (_ && _); [destruct (_ && _)|];
      inversion H; subst; auto. }
  split; [apply (Hdet w eq_refl eq_refl)|].
  intros w2 Ea Eb. apply (Hdet w2 Ea Eb).
Qed.

(** C10.  [has_hit] is pure: a call that returns leaves the whole world
    (so every field of A, of B and of any other object) as it was, and the
    result depends only on the two objects read, so a second call on equal
    states returns the same boolean. *)
Theorem has_hit_pure (w : World) (a b : addr) (r : bool) (w' : World) :
  has_hit a b w = Some (r, w') ->
  w' = w
  /\ lookup w' a = lookup w a /\ lookup w' b = lookup w b
  /\ has_hit a b w' = Some (r, w')
  /\ (forall w2, lookup w2 a = lookup w a -> lookup w2 b = lookup w b ->
                 has_hit a b w2 = Some (r, w2)).
Proof.
  intros H. destruct (has_hit_reads w a b r w' H) as [Hw Hdet].
  subst w'. split; [reflexivity|].
  split; [reflexivity|]. split; [reflexivity|].
  split; [apply Hdet; reflexivity|exact Hdet].
Qed.

(** ** What each method does to the world *)

Lemma load_None w a : lookup w a = None -> load a w = None.
Proof. unfold lookup, load. intros ->. reflexivity. Qed.

Lemma lookup_with_heap_set w a b i x :
  lookup w b = Some x ->
  lookup (with_heap w (list_set (heap w) a i)) b
  = Some (if Nat.eq_dec a b then i else x).
Proof. unfold lookup. simpl. apply nth_error_list_set. Qed.

(** Rewrites a method call on a known object into its result. *)
Ltac run_method H :=
  cbv beta delta [bind load_obj store_obj];
  repeat (first
    [ rewrite (load_Some _ _ _ H); cbv beta iota
    | rewrite (store_Some _ _ _ _ H); cbv beta iota
    | unfold ret at 1; cbv beta iota ]).

Lemma destroy_spec w a i :
  lookup w a = Some i ->
  destroy a w
  = Some (tt, with_heap w (list_set (heap w) a (set_base i (set_destroyed (base i) true)))).
Proof. intros H. unfold destroy. run_method H. reflexivity. Qed.

Lemma draw_spec w a i : lookup w a = Some i -> draw a w = Some (tt, w).
Proof. intros H. unfold draw. run_method H. reflexivity. Qed.

Lemma explode_spec w a i :
  lookup w a = Some i ->
  explode a w
  = Some (tt, mkWorld (clock_now w)
                (clock_items w ++ [(clock_now w + explosion_time (class_of i), destroy_cb a)])
                (list_set (heap w) a (set_base i (blown_up (class_of i) (base i))))
                (window_bullets w)).
Proof. intros H. unfold explode. run_method H. reflexivity. Qed.

Lemma Bullet_update_spec w a g dt :
  lookup w a = Some (IBullet g) ->
  Bullet_update a dt w
  = Some (tt, with_heap w
                (list_set (heap w) a
                   (IBullet (set_sprite g
                      (set_sprite_y (sprite g)
                         (sprite_y (sprite g) + Bullet_speed * dt)))))).
Proof. intros H. unfold Bullet_update. run_method H. reflexivity. Qed.

Lemma move_spec w a g k c speed dt :
  lookup w a = Some (IPlayer g k c) ->
  move a speed dt w
  = Some (tt, with_heap w (list_set (heap w) a (IPlayer (moved g speed dt) k c))).
Proof. intros H. unfold move. run_method H. reflexivity. Qed.

Lemma end_cooldown_spec w a g k c :
  lookup w a = Some (IPlayer g k c) ->
  end_cooldown a w
  = Some (tt, with_heap w (list_set (heap w) a (IPlayer g k false))).
Proof. intros H. unfold end_cooldown. run_method H. reflexivity. Qed.

Lemma set_cooldown_spec w a g k c c' :
  lookup w a = Some (IPlayer g k c) ->
  set_cooldown a c' w
  = Some (tt, with_heap w (list_set (heap w) a (IPlayer g k c'))).
Proof. intros H. unfold set_cooldown. run_method H. reflexivity. Qed.

Lemma set_keys_spec w a g k c k' :
  lookup w a = Some (IPlayer g k c) ->
  set_keys a k' w
  = Some (tt, with_heap w (list_set (heap w) a (IPlayer g k' c))).
Proof. intros H. unfold set_keys. run_method H. reflexivity. Qed.

Lemma fire_spec w a g k c :
  lookup w a = Some (IPlayer g k c) ->
  fire a w
  = Some (tt, mkWorld (clock_now w) (clock_items w)
                (heap w ++ [IBullet (bullet_of g)])
                (window_bullets w ++ [length (heap w)])).
Proof. intros H. unfold fire. run_method H. reflexivity. Qed.

Lemma with_heap_same w a i : lookup w a = Some i -> with_heap w (list_set (heap w) a i) = w.
Proof.
  intros H. unfold with_heap. rewrite (list_set_same _ _ _ H). destruct w; reflexivity.
Qed.

Lemma lookup_app_new w a i x :
  lookup w a = Some x -> nth_error (heap w ++ [i]) a = Some x.
Proof.
  unfold lookup. intros H. rewrite nth_error_app1; auto.
  apply nth_error_Some. congruence.
Qed.

Lemma Player_update_spec w a g k c dt :
  lookup w a = Some (IPlayer g k c) ->
  Player_update a dt w
  = Some (tt,
      let g1 := steered k g dt in
      let h1 := list_set (heap w) a (IPlayer g1 k c) in
      if k fire_key && negb c
      then mkWorld (clock_now w)
             (clock_items w ++ [(clock_now w + cooldown_time, end_cooldown_cb a)])
             (list_set (h1 ++ [IBullet (bullet_of g1)]) a (IPlayer g1 k true))
             (window_bullets w ++ [length h1])
      else with_heap w h1).
Proof.
  intros H. unfold Player_update.
  unfold bind at 1. rewrite (load_Some _ _ _ H). cbv beta iota.
  assert (Hmove :
    (if k left_key && negb (k right_key) then move a (- Player_speed) dt
     else if k right_key && negb (k left_key) then move a Player_speed dt
     else ret tt) w
    = Some (tt, with_heap w (list_set (heap w) a (IPlayer (steered k g dt) k c)))).
  { unfold steered.
    destruct (k left_key && negb (k right_key)); [apply (move_spec _ _ _ _ _ _ _ H)|].
    destruct (k right_key && negb (k left_key)); [apply (move_spec _ _ _ _ _ _ _ H)|].
    unfold ret. rewrite (with_heap_same _ _ _ H). reflexivity. }
  unfold bind at 1. rewrite Hmove. cbv beta iota.
  set (g1 := steered k g dt).
  set (w1 := with_heap w (list_set (heap w) a (IPlayer g1 k c))).
  assert (H1 : lookup w1 a = Some (IPlayer g1 k c)).
  { unfold w1. rewrite (lookup_with_heap_set _ _ _ _ _ H).
    destruct (Nat.eq_dec a a); congruence. }
  unfold bind at 1. rewrite (load_Some _ _ _ H1). cbv beta iota.
  change (cooldown_of (IPlayer g1 k c)) with c.
  destruct (k fire_key && negb c); [|reflexivity].
  unfold bind at 1. rewrite (fire_spec _ _ _ _ _ H1). cbv beta iota.
  match goal with |- bind _ _ ?w2 = _ => set (w2' := w2) end.
  assert (H2 : lookup w2' a = Some (IPlayer g1 k c)).
  { unfold w2', lookup. cbn [heap]. apply (lookup_app_new w1). exact H1. }
  unfold bind at 1. rewrite (set_cooldown_spec _ _ _ _ _ true H2). cbv beta iota.
  unfold schedule_once, w2', with_heap, w1. simpl. reflexivity.
Qed.

(** *** Methods fail only for want of an object of the right class *)

Ltac no_object H E :=
  cbv beta delta [bind load_obj store_obj] in H;
  rewrite (load_None _ _ E) in H; discriminate H.

Ltac wrong_class H E :=
  cbv beta delta [bind] in H;
  rewrite (load_Some _ _ _ E) in H; discriminate H.

Lemma destroy_inv w a u w' :
  destroy a w = Some (u, w') ->
  exists i, lookup w a = Some i
    /\ w' = with_heap w (list_set (heap w) a (set_base i (set_destroyed (base i) true))).
Proof.
  intros H. destruct (lookup w a) as [i|] eqn:E.
  - rewrite (destroy_spec _ _ _ E) in H. inversion H. eauto.
  - unfold destroy in H. no_object H E.
Qed.

Lemma explode_inv w a u w' :
  explode a w = Some (u, w') ->
  exists i, lookup w a = Some i
    /\ w' = mkWorld (clock_now w)
              (clock_items w ++ [(clock_now w + explosion_time (class_of i), destroy_cb a)])
              (list_set (heap w) a (set_base i (blown_up (class_of i) (base i))))
              (window_bullets w).
Proof.
  intros H. destruct (lookup w a) as [i|] eqn:E.
  - rewrite (explode_spec _ _ _ E) in H. inversion H. eauto.
  - unfold explode in H. no_object H E.
Qed.

Lemma Bullet_update_inv w a dt u w' :
  Bullet_update a dt w = Some (u, w') ->
  exists g, lookup w a = Some (IBullet g)
    /\ w' = with_heap w
              (list_set (heap w) a
                 (IBullet (set_sprite g
                    (set_sprite_y (sprite g)
                       (sprite_y (sprite g) + Bullet_speed * dt))))).
Proof.
  intros H. destruct (lookup w a) as [[g|g|g k c]|] eqn:E.
  - unfold Bullet_update in H. wrong_class H E.
  - rewrite (Bullet_update_spec _ _ _ _ E) in H. inversion H. eauto.
  - unfold Bullet_update in H. wrong_class H E.
  - unfold Bullet_update in H. no_object H E.
Qed.

Lemma move_inv w a speed dt u w' :
  move a speed dt w = Some (u, w') ->
  exists g k c, lookup w a = Some (IPlayer g k c)
    /\ w' = with_heap w (list_set (heap w) a (IPlayer (moved g speed dt) k c)).
Proof.
  intros H. destruct (lookup w a) as [[g|g|g k c]|] eqn:E.
  - unfold move in H. wrong_class H E.
  - unfold move in H. wrong_class H E.
  - rewrite (move_spec _ _ _ _ _ _ _ E) in H. inversion H. eauto.
  - unfold move in H. no_object H E.
Qed.

Lemma end_cooldown_inv w a u w' :
  end_cooldown a w = Some (u, w') ->
  exists g k c, lookup w a = Some (IPlayer g k c)
    /\ w' = with_heap w (list_set (heap w) a (IPlayer g k false)).
Proof.
  intros H. destruct (lookup w a) as [[g|g|g k c]|] eqn:E.
  - unfold end_cooldown in H. wrong_class H E.
  - unfold end_cooldown in H. wrong_class H E.
  - rewrite (end_cooldown_spec _ _ _ _ _ E) in H. inversion H. eauto.
  - unfold end_cooldown in H. no_object H E.
Qed.

Lemma set_keys_inv w a k' u w' :
  set_keys a k' w = Some (u, w') ->
  exists g k c, lookup w a = Some (IPlayer g k c)
    /\ w' = with_heap w (list_set (heap w) a (IPlayer g k' c)).
Proof.
  intros H. destruct (lookup w a) as [[g|g|g k c]|] eqn:E.
  - unfold set_keys in H. wrong_class H E.
  - unfold set_keys in H. wrong_class H E.
  - rewrite (set_keys_spec _ _ _ _ _ k' E) in H. inversion H. eauto.
  - unfold set_keys in H. no_object H E.
Qed.

Lemma fire_inv w a u w' :
  fire a w = Some (u, w') ->
  exists g k c, lookup w a = Some (IPlayer g k c)
    /\ w' = mkWorld (clock_now w) (clock_items w)
              (heap w ++ [IBullet (bullet_of g)])
              (window_bullets w ++ [length (heap w)]).
Proof.
  intros H. destruct (lookup w a) as [[g|g|g k c]|] eqn:E.
  - unfold fire in H. wrong_class H E.
  - unfold fire in H. wrong_class H E.
  - rewrite (fire_spec _ _ _ _ _ E) in H. inversion H. eauto.
  - unfold fire in H. no_object H E.
Qed.

Lemma Player_update_inv w a dt u w' :
  Player_update a dt w = Some (u, w') ->
  exists g k c, lookup w a = Some (IPlayer g k c)
    /\ Player_update a dt w = Some (tt, w').
Proof.
  intros H. destruct u. destruct (lookup w a) as [[g|g|g k c]|] eqn:E.
  - unfold Player_update in H. wrong_class H E.
  - unfold Player_update in H. wrong_class H E.
  - eauto.
  - unfold Player_update in H. no_object H E.
Qed.

Lemma draw_inv w a u w' : draw a w = Some (u, w') -> w' = w.
Proof.
  intros H. destruct (lookup w a) as [i|] eqn:E.
  - rewrite (draw_spec _ _ _ E) in H. inversion H. reflexivity.
  - unfold draw in H. no_object H E.
Qed.

(** *** The effect of an event, object by object *)

Lemma nth_error_list_set_eqb {A} (l : list A) n m v x :
  nth_error l m = Some x ->
  nth_error (list_set l n v) m = Some (if Nat.eqb n m then v else x).
Proof.
  intros H. rewrite (nth_error_list_set _ n _ v _ H).
  destruct (Nat.eq_dec n m) as [->|Hne].
  - rewrite Nat.eqb_refl. reflexivity.
  - apply Nat.eqb_neq in Hne. rewrite Hne. reflexivity.
Qed.

Lemma nth_error_list_set_None {A} (l : list A) n m v :
  nth_error l m = None -> nth_error (list_set l n v) m = None.
Proof.
  intros H. apply nth_error_None. rewrite length_list_set.
  apply nth_error_None. exact H.
Qed.

Lemma eqb_lookup_eq a b w (i j : Instance) :
  lookup w a = Some i -> lookup w b = Some j -> Nat.eqb a b = true -> i = j.
Proof. intros Ha Hb E. apply Nat.eqb_eq in E. subst. congruence. Qed.

Lemma run_callback_effect cb w u w' :
  run_callback cb w = Some (u, w') ->
  clock_now w' = clock_now w /\ clock_items w' = clock_items w
  /\ window_bullets w' = window_bullets w
  /\ length (heap w') = length (heap w)
  /\ forall b i, lookup w b = Some i -> lookup w' b = Some (after_callback cb b i).
Proof.
  intros H. destruct cb as [a|a]; simpl in H.
  - apply destroy_inv in H. destruct H as [i [Hi ->]].
    simpl. rewrite length_list_set. repeat split; auto.
    intros b j Hb. unfold lookup. simpl.
    rewrite (nth_error_list_set_eqb _ a _ _ _ Hb).
    destruct (Nat.eqb a b) eqn:E; [|reflexivity].
    rewrite (eqb_lookup_eq _ _ _ _ _ Hi Hb E). reflexivity.
  - apply end_cooldown_inv in H. destruct H as [g [k [c [Hi ->]]]].
    simpl. rewrite length_list_set. repeat split; auto.
    intros b j Hb. unfold lookup. simpl.
    rewrite (nth_error_list_set_eqb _ a _ _ _ Hb).
    destruct (Nat.eqb a b) eqn:E; [|reflexivity].
    rewrite <- (eqb_lookup_eq _ _ _ _ _ Hi Hb E). reflexivity.
Qed.

Lemma run_callbacks_effect cbs : forall w u w',
  run_callbacks cbs w = Some (u, w') ->
  clock_now w' = clock_now w /\ clock_items w' = clock_items w
  /\ window_bullets w' = window_bullets w
  /\ length (heap w') = length (heap w)
  /\ forall b i, lookup w b = Some i -> lookup w' b = Some (after_callbacks cbs b i).
Proof.
  induction cbs as [|[t cb] rest IH]; intros w u w' H; simpl in H.
  - unfold ret in H. inversion H; subst. repeat split; auto.
  - unfold bind in H.
    destruct (run_callback cb w) as [[u1 w1]|] eqn:E1; [|discriminate].
    apply run_callback_effect in E1. destruct E1 as (N1 & I1 & B1 & L1 & O1).
    apply IH in H. destruct H as (N2 & I2 & B2 & L2 & O2).
    repeat split; try congruence.
    intros b i Hb. simpl. apply O2. apply O1. exact Hb.
Qed.

Lemma lookup_None_length w b : lookup w b = None <-> (length (heap w) <= b)%nat.
Proof. unfold lookup. apply nth_error_None. Qed.

Lemma lookup_alloc w i b x :
  lookup w b = Some x -> nth_error (heap w ++ [i]) b = Some x.
Proof. apply lookup_app_new. Qed.

Lemma run_event_effect e w u w' :
  run_event e w = Some (u, w') ->
  clock_now w' = now_after e w
  /\ clock_items w' = items_after e w
  /\ window_bullets w' = bullets_after e w
  /\ (length (heap w) <= length (heap w'))%nat
  /\ forall b i, lookup w b = Some i -> lookup w' b = Some (after_event e w b i).
Proof.
  intros H. destruct e; simpl in H.
  - (* tick *)
    unfold clock_tick in H. apply run_callbacks_effect in H.
    destruct H as (N & I & B & L & O). simpl in *.
    repeat split; auto. lia.
  - apply set_keys_inv in H. destruct H as [g [k0 [c [Hi ->]]]].
    simpl. rewrite length_list_set. repeat split; auto.
    intros b j Hb. unfold lookup. simpl.
    rewrite (nth_error_list_set_eqb _ p _ _ _ Hb).
    destruct (Nat.eqb p b) eqn:E; [|reflexivity].
    rewrite <- (eqb_lookup_eq _ _ _ _ _ Hi Hb E). reflexivity.
  - unfold bind, alloc, ret in H. inversion H; subst. simpl.
    rewrite length_app. simpl. repeat split; auto; try lia.
    intros b j Hb. apply lookup_alloc. exact Hb.
  - unfold bind, Bullet_init, alloc, ret in H. inversion H; subst. simpl.
    rewrite length_app. simpl. repeat split; auto; try lia.
    intros b j Hb. apply lookup_alloc. exact Hb.
  - unfold bind, Player_init, alloc, ret in H. inversion H; subst. simpl.
    rewrite length_app. simpl. repeat split; auto; try lia.
    intros b j Hb. apply lookup_alloc. exact Hb.
  - unfold bind in H. destruct (has_hit a b w) as [[r w1]|] eqn:E; [|discriminate].
    apply has_hit_reads in E. destruct E as [-> _].
    unfold ret in H. inversion H; subst. repeat split; auto.
  - apply draw_inv in H. subst. repeat split; auto.
  - apply destroy_inv in H. destruct H as [i [Hi ->]].
    simpl. rewrite length_list_set. repeat split; auto.
    intros b j Hb. unfold lookup. simpl.
    rewrite (nth_error_list_set_eqb _ a _ _ _ Hb).
    destruct (Nat.eqb a b) eqn:E; [|reflexivity].
    rewrite (eqb_lookup_eq _ _ _ _ _ Hi Hb E). reflexivity.
  - apply explode_inv in H. destruct H as [i [Hi ->]].
    simpl. rewrite length_list_set. repeat split; auto.
    intros b j Hb. unfold lookup. simpl.
    rewrite (nth_error_list_set_eqb _ a _ _ _ Hb).
    destruct (Nat.eqb a b) eqn:E; [|reflexivity].
    rewrite (eqb_lookup_eq _ _ _ _ _ Hi Hb E). reflexivity.
  - apply Bullet_update_inv in H. destruct H as [g [Hi ->]].
    simpl. rewrite length_list_set. repeat split; auto.
    intros b j Hb. unfold lookup. simpl.
    rewrite (nth_error_list_set_eqb _ a _ _ _ Hb).
    destruct (Nat.eqb a b) eqn:E; [|reflexivity].
    rewrite <- (eqb_lookup_eq _ _ _ _ _ Hi Hb E). reflexivity.
  - apply Player_update_inv in H. destruct H as [g [k [c [Hi H]]]].
    rewrite (Player_update_spec _ _ _ _ _ _ Hi) in H.
    unfold items_after, bullets_after, now_after, fires. rewrite Hi. cbv zeta in H.
    destruct (k fire_key && negb c) eqn:F; inversion H; subst; clear H; simpl.
    + rewrite !length_list_set, length_app, length_list_set. simpl.
      repeat split; auto; try lia.
      intros b j Hb. unfold lookup. simpl.
      assert (Hb' : nth_error (list_set (heap w) a (IPlayer (steered k g dt) k c)
                                ++ [IBullet (bullet_of (steered k g dt))]) b
                    = Some (if Nat.eqb a b then IPlayer (steered k g dt) k c else j)).
      { rewrite nth_error_app1.
        - apply nth_error_list_set_eqb. exact Hb.
        - rewrite length_list_set. apply nth_error_Some. unfold lookup in Hb. congruence. }
      rewrite (nth_error_list_set_eqb _ a _ _ _ Hb').
      destruct (Nat.eqb a b) eqn:E; [|reflexivity].
      rewrite <- (eqb_lookup_eq _ _ _ _ _ Hi Hb E). rewrite F. reflexivity.
    + rewrite length_list_set. repeat split; auto.
      intros b j Hb. unfold lookup. simpl.
      rewrite (nth_error_list_set_eqb _ a _ _ _ Hb).
      destruct (Nat.eqb a b) eqn:E; [|reflexivity].
      rewrite <- (eqb_lookup_eq _ _ _ _ _ Hi Hb E). rewrite F. reflexivity.
  - apply move_inv in H. destruct H as [g [k [c [Hi ->]]]].
    simpl. rewrite length_list_set. repeat split; auto.
    intros b j Hb. unfold lookup. simpl.
    rewrite (nth_error_list_set_eqb _ a _ _ _ Hb).
    destruct (Nat.eqb a b) eqn:E; [|reflexivity].
    rewrite <- (eqb_lookup_eq _ _ _ _ _ Hi Hb E). reflexivity.
  - apply end_cooldown_inv in H. destruct H as [g [k [c [Hi ->]]]].
    simpl. rewrite length_list_set. repeat split; auto.
    intros b j Hb. unfold lookup. simpl.
    rewrite (nth_error_list_set_eqb _ a _ _ _ Hb).
    destruct (Nat.eqb a b) eqn:E; [|reflexivity].
    rewrite <- (eqb_lookup_eq _ _ _ _ _ Hi Hb E). reflexivity.
  - apply fire_inv in H. destruct H as [g [k [c [Hi ->]]]].
    simpl. rewrite length_app. simpl. repeat split; auto; try lia.
    intros b j Hb. apply lookup_alloc. exact Hb.
Qed.

Lemma run_events_app es1 es2 w :
  run_events (es1 ++ es2) w
  = match run_events es1 w with
    | Some (_, w1) => run_events es2 w1
    | None => None
    end.
Proof.
  revert w. induction es1 as [|e rest IH]; intros w; simpl.
  - reflexivity.
  - unfold bind. destruct (run_event e w) as [[u w1]|]; [apply IH|reflexivity].
Qed.

Lemma run_events_cons e es w u w' :
  run_events (e :: es) w = Some (u, w') ->
  exists w1, run_event e w = Some (tt, w1) /\ run_events es w1 = Some (u, w').
Proof.
  simpl. unfold bind. destruct (run_event e w) as [[[] w1]|]; [|discriminate].
  eauto.
Qed.

(** ** The flags only go up *)

Lemma base_set_base i g : base (set_base i g) = g.
Proof. destruct i; reflexivity. Qed.

Lemma class_of_set_base i g : class_of (set_base i g) = class_of i.
Proof. destruct i; reflexivity. Qed.

Lemma set_base_set_base i g g' : set_base (set_base i g) g' = set_base i g'.
Proof. destruct i; reflexivity. Qed.

Lemma grown_refl i : grown i i.
Proof. unfold grown. auto. Qed.

Lemma grown_trans i j k : grown i j -> grown j k -> grown i k.
Proof. unfold grown. intros (A & B & C) (A' & B' & C'). repeat split; [congruence| |]; auto. Qed.

Lemma after_callback_grown cb b i : grown i (after_callback cb b i).
Proof.
  destruct cb as [a|a]; simpl; destruct (Nat.eqb a b); try apply grown_refl.
  - unfold grown. rewrite class_of_set_base, base_set_base. simpl. auto.
  - destruct i; apply grown_refl || (unfold grown; simpl; auto).
Qed.

Lemma after_callbacks_grown cbs b : forall i, grown i (after_callbacks cbs b i).
Proof.
  induction cbs as [|[t cb] rest IH]; intros i; simpl.
  - apply grown_refl.
  - eapply grown_trans; [apply after_callback_grown|apply IH].
Qed.

Lemma set_base_grown i g :
  (exploded (base i) = true -> exploded g = true) ->
  (destroyed (base i) = true -> destroyed g = true) ->
  grown i (set_base i g).
Proof.
  intros E D. unfold grown. rewrite class_of_set_base, base_set_base. auto.
Qed.

Lemma steered_flags k g dt :
  exploded (steered k g dt) = exploded g /\ destroyed (steered k g dt) = destroyed g.
Proof.
  unfold steered.
  destruct (k left_key && negb (k right_key)); [split; reflexivity|].
  destruct (k right_key && negb (k left_key)); split; reflexivity.
Qed.

Lemma after_event_grown e w b i : grown i (after_event e w b i).
Proof.
  destruct e; simpl;
    try apply grown_refl;
    try apply after_callbacks_grown;
    try apply after_callback_grown;
    match goal with |- context [Nat.eqb ?x b] => destruct (Nat.eqb x b) end;
    try apply grown_refl;
    try (apply set_base_grown; simpl; auto);
    destruct i; try apply grown_refl; unfold grown; simpl; auto.
  destruct (steered_flags key_handler g dt) as [-> ->]. auto.
Qed.

Lemma run_events_grown es : forall w u w' a i,
  run_events es w = Some (u, w') ->
  lookup w a = Some i ->
  exists i', lookup w' a = Some i' /\ grown i i'.
Proof.
  induction es as [|e rest IH]; intros w u w' a i H Ha.
  - simpl in H. unfold ret in H. inversion H; subst. exists i. split; [auto|apply grown_refl].
  - apply run_events_cons in H. destruct H as [w1 [H1 H2]].
    apply run_event_effect in H1. destruct H1 as (_ & _ & _ & _ & O).
    specialize (O _ _ Ha).
    destruct (IH _ _ _ _ _ H2 O) as [i' [Hi' G]].
    exists i'. split; [exact Hi'|].
    eapply grown_trans; [apply after_event_grown|exact G].
Qed.

(** C8.  Whatever sequence of operations runs (updates, [move], [fire],
    [end_cooldown], [destroy], [explode], [has_hit], [draw], clock ticks,
    key events, constructions), an object that is exploded stays exploded
    and an object that is destroyed stays destroyed.  [destroy] sets
    [destroyed] to [True], and calling it again changes nothing. *)
Theorem flags_never_reset (es : list Event) (w w' : World) (a : addr) (i : Instance) :
  lookup w a = Some i ->
  run_events es w = Some (tt, w') ->
  (exists i', lookup w' a = Some i'
     /\ (exploded (base i) = true -> exploded (base i') = true)
     /\ (destroyed (base i) = true -> destroyed (base i') = true))
  /\ (exists w1, destroy a w = Some (tt, w1)
        /\ destroyed_at w1 a = true
        /\ exploded_at w1 a = exploded_at w a
        /\ destroy a w1 = Some (tt, w1)).
Proof.
  intros Ha H. split.
  - destruct (run_events_grown _ _ _ _ _ _ H Ha) as [i' [Hi' (_ & E & D)]].
    exists i'. auto.
  - set (i1 := set_base i (set_destroyed (base i) true)).
    set (w1 := with_heap w (list_set (heap w) a i1)).
    assert (H1 : lookup w1 a = Some i1).
    { unfold w1. rewrite (lookup_with_heap_set _ _ _ _ _ Ha).
      destruct (Nat.eq_dec a a); congruence. }
    exists w1. split; [apply (destroy_spec _ _ _ Ha)|].
    unfold destroyed_at, exploded_at. rewrite H1, Ha.
    unfold i1 at 1 2. rewrite base_set_base. simpl.
    repeat split.
    rewrite (destroy_spec _ _ _ H1). f_equal. f_equal.
    apply with_heap_same. rewrite H1. f_equal.
    unfold i1. rewrite base_set_base, set_base_set_base. reflexivity.
Qed.

(** ** Moving and firing *)

Lemma Player_update_runs w p g k c dt :
  lookup w p = Some (IPlayer g k c) ->
  exists w',
    Player_update p dt w = Some (tt, w')
    /\ lookup w' p
       = Some (IPlayer (steered k g dt) k (if k fire_key && negb c then true else c)).
Proof.
  intros H. eexists. split; [apply (Player_update_spec _ _ _ _ _ _ H)|].
  pose proof (Player_update_spec _ _ _ _ _ dt H) as S.
  change (Player_update p dt w) with (run_event (EvPlayerUpdate p dt) w) in S.
  apply run_event_effect in S. destruct S as (_ & _ & _ & _ & O).
  rewrite (O _ _ H). simpl. rewrite Nat.eqb_refl. reflexivity.
Qed.

(** C4.  One tick of [Player.update]: with both movement keys held the x
    coordinate is unchanged; with only the left key held it becomes
    [x + (-speed) * dt], with only the right key [x + speed * dt], where
    [speed] is 150; with none it is unchanged.  The y coordinate never
    changes. *)
Theorem player_update_movement (w : World) (p : addr) (g : GameObject)
    (k : KeyStateHandler) (c : bool) (dt : Q) :
  lookup w p = Some (IPlayer g k c) ->
  exists w' g' c',
    Player_update p dt w = Some (tt, w')
    /\ lookup w' p = Some (IPlayer g' k c')
    /\ sprite_y (sprite g') = sprite_y (sprite g)
    /\ (k left_key = true -> k right_key = true ->
        sprite_x (sprite g') = sprite_x (sprite g))
    /\ (k left_key = true -> k right_key = false ->
        sprite_x (sprite g') = sprite_x (sprite g) + (- Player_speed) * dt
        /\ sprite_x (sprite g') - sprite_x (sprite g) == - (150 * dt))
    /\ (k left_key = false -> k right_key = true ->
        sprite_x (sprite g') = sprite_x (sprite g) + Player_speed * dt
        /\ sprite_x (sprite g') - sprite_x (sprite g) == 150 * dt)
    /\ (k left_key = false -> k right_key = false ->
        sprite_x (sprite g') = sprite_x (sprite g)).
Proof.
  intros H. destruct (Player_update_runs w p g k c dt H) as [w' [Hrun Hp]].
  exists w', (steered k g dt), (if k fire_key && negb c then true else c).
  split; [exact Hrun|]. split; [exact Hp|].
  unfold steered, Player_speed.
  destruct (k left_key) eqn:L; destruct (k right_key) eqn:R; simpl;
    repeat split; intros; try discriminate; try reflexivity; try ring.
Qed.

(** C5.  [fire] on a player appends exactly one address to the window's
    bullet list, the address of a bullet that did not exist before; that
    bullet starts at x = player x + player sprite width / 2 (120 for a
    player at 100 of width 40) and at y = Player image height + Bullet
    image height * Bullet scale; no other object changes. *)
Theorem fire_appends_one_bullet (w : World) (p : addr) (g : GameObject)
    (k : KeyStateHandler) (c : bool) :
  lookup w p = Some (IPlayer g k c) ->
  exists w' b bg,
    fire p w = Some (tt, w')
    /\ window_bullets w' = window_bullets w ++ [b]
    /\ lookup w b = None
    /\ lookup w' b = Some (IBullet bg)
    /\ length (heap w') = S (length (heap w))
    /\ (forall a i, lookup w a = Some i -> lookup w' a = Some i)
    /\ sprite_x (sprite bg) = sprite_x (sprite g) + sprite_width (sprite g) / 2
    /\ (sprite_x (sprite g) == 100 -> sprite_width (sprite g) == 40 ->
        sprite_x (sprite bg) == 120)
    /\ sprite_y (sprite bg)
       = img_height (image Player_class)
         + img_height (image Bullet_class) * scale Bullet_class
    /\ exploded bg = false /\ destroyed bg = false.
Proof.
  intros H. eexists. exists (length (heap w)), (bullet_of g).
  split; [apply (fire_spec _ _ _ _ _ H)|]. simpl.
  split; [reflexivity|].
  split; [apply lookup_None_length; lia|].
  split; [unfold lookup; simpl; rewrite nth_error_app2, Nat.sub_diag; [reflexivity|lia]|].
  split; [rewrite length_app; simpl; lia|].
  split; [intros a i Ha; apply lookup_alloc; exact Ha|].
  split; [reflexivity|].
  split; [|repeat split].
  intros Hx Hw. rewrite Hx, Hw. reflexivity.
Qed.

(** C9.  The y coordinate of a bullet made by [fire] is the constant
    Player image height + Bullet image height * Bullet scale: two players
    at any two positions, in any two worlds, spawn bullets at the same y,
    and the player's own y (20 for a new player) does not enter it. *)
Theorem bullet_spawn_height_constant (w1 w2 : World) (p1 p2 : addr)
    (g1 g2 : GameObject) (k1 k2 : KeyStateHandler) (c1 c2 : bool) :
  lookup w1 p1 = Some (IPlayer g1 k1 c1) ->
  lookup w2 p2 = Some (IPlayer g2 k2 c2) ->
  exists w1' w2' b1 b2,
    fire p1 w1 = Some (tt, w1') /\ fire p2 w2 = Some (tt, w2')
    /\ lookup w1' (length (heap w1)) = Some (IBullet b1)
    /\ lookup w2' (length (heap w2)) = Some (IBullet b2)
    /\ sprite_y (sprite b1) = sprite_y (sprite b2)
    /\ sprite_y (sprite b1)
       = img_height player_png + img_height bullet_png * 0.2
    /\ (exists q wq gq kq cq,
          Player_init w1 = Some (q, wq)
          /\ lookup wq q = Some (IPlayer gq kq cq)
          /\ sprite_y (sprite gq) = 20).
Proof.
  intros H1 H2. eexists. eexists. exists (bullet_of g1), (bullet_of g2).
  split; [apply (fire_spec _ _ _ _ _ H1)|].
  split; [apply (fire_spec _ _ _ _ _ H2)|].
  split; [unfold lookup; simpl; rewrite nth_error_app2, Nat.sub_diag; [reflexivity|lia]|].
  split; [unfold lookup; simpl; rewrite nth_error_app2, Nat.sub_diag; [reflexivity|lia]|].
  split; [reflexivity|]. split; [reflexivity|].
  eexists. eexists. eexists. eexists. eexists.
  split; [reflexivity|].
  split; [unfold lookup; simpl; rewrite nth_error_app2, Nat.sub_diag; [reflexivity|lia]|].
  reflexivity.
Qed.

(** ** Bullets *)

Lemma Bullet_update_runs w a g dt :
  lookup w a = Some (IBullet g) ->
  exists w',
    Bullet_update a dt w = Some (tt, w')
    /\ lookup w' a
       = Some (IBullet (set_sprite g
                 (set_sprite_y (sprite g) (sprite_y (sprite g) + Bullet_speed * dt))))
    /\ clock_now w' = clock_now w
    /\ clock_items w' = clock_items w
    /\ window_bullets w' = window_bullets w.
Proof.
  intros H. eexists. split; [apply (Bullet_update_spec _ _ _ _ H)|].
  simpl. repeat split.
  rewrite (lookup_with_heap_set _ _ _ _ _ H).
  destruct (Nat.eq_dec a a); congruence.
Qed.

Lemma Bullet_updates_run a dts : forall w g,
  lookup w a = Some (IBullet g) ->
  Forall (fun dt => 0 <= dt) dts ->
  exists w' g',
    run_events (Bullet_updates a dts) w = Some (tt, w')
    /\ lookup w' a = Some (IBullet g')
    /\ sprite_y (sprite g) <= sprite_y (sprite g')
    /\ sprite_x (sprite g') = sprite_x (sprite g)
    /\ exploded g' = exploded g /\ destroyed g' = destroyed g
    /\ clock_items w' = clock_items w.
Proof.
  induction dts as [|dt rest IH]; intros w g H Hpos.
  - exists w, g. simpl. repeat split; auto. apply Qle_refl.
  - inversion Hpos as [|? ? Hdt Hrest]; subst.
    destruct (Bullet_update_runs w a g dt H) as [w1 [R1 [L1 [_ [I1 _]]]]].
    destruct (IH _ _ L1 Hrest) as [w' [g' (R & L & Y & X & E & D & I)]].
    exists w', g'. simpl. unfold bind. rewrite R1.
    split; [exact R|]. split; [exact L|].
    simpl in *. repeat split; try congruence.
    eapply Qle_trans; [|exact Y].
    unfold Bullet_speed.
    assert (0 <= 180 * dt) by (apply Qmult_le_0_compat; [discriminate|exact Hdt]).
    lra.
Qed.

(** C7.  [Bullet.update(dt)] turns y into [y + speed * dt] with [speed]
    equal to 180, so y grows by 180 for [dt = 1]; for an elapsed time that
    is not negative y does not decrease, in one update and over any run of
    updates; x is unchanged; and nothing else happens: the flags are as
    before (no bounds check destroys the bullet, wherever it is), nothing
    is scheduled, the bullet list is untouched. *)
Theorem bullet_update_ascends (w : World) (a : addr) (g : GameObject) (dt : Q) :
  lookup w a = Some (IBullet g) ->
  exists w' g',
    Bullet_update a dt w = Some (tt, w')
    /\ lookup w' a = Some (IBullet g')
    /\ sprite_y (sprite g') = sprite_y (sprite g) + Bullet_speed * dt
    /\ sprite_y (sprite g') - sprite_y (sprite g) == 180 * dt
    /\ (dt == 1 -> sprite_y (sprite g') - sprite_y (sprite g) == 180)
    /\ (0 <= dt -> sprite_y (sprite g) <= sprite_y (sprite g'))
    /\ sprite_x (sprite g') = sprite_x (sprite g)
    /\ exploded g' = exploded g /\ destroyed g' = destroyed g
    /\ clock_items w' = clock_items w
    /\ window_bullets w' = window_bullets w
    /\ (forall dts, Forall (fun d => 0 <= d) dts ->
        exists w2 g2,
          run_events (Bullet_updates a dts) w = Some (tt, w2)
          /\ lookup w2 a = Some (IBullet g2)
          /\ sprite_y (sprite g) <= sprite_y (sprite g2)
          /\ sprite_x (sprite g2) = sprite_x (sprite g)
          /\ destroyed g2 = destroyed g).
Proof.
  intros H. destruct (Bullet_update_runs w a g dt H) as [w' [R [L [_ [I B]]]]].
  eexists. eexists. split; [exact R|]. split; [exact L|]. simpl.
  unfold Bullet_speed.
  split; [reflexivity|]. split; [ring|].
  split; [intros ->; ring|].
  split.
  { intros Hdt.
    assert (0 <= 180 * dt) by (apply Qmult_le_0_compat; [discriminate|exact Hdt]).
    lra. }
  repeat split; auto.
  intros dts Hpos.
  destruct (Bullet_updates_run a dts w g H Hpos) as [w2 [g2 (R2 & L2 & Y & X & _ & D & _)]].
  exists w2, g2. auto.
Qed.

(** ** The size of an object *)

Lemma same_size_refl i : same_size i i.
Proof. split; reflexivity. Qed.

Lemma same_size_trans i j k : same_size i j -> same_size j k -> same_size i k.
Proof. unfold same_size. intros [A B] [A' B']. split; congruence. Qed.

Lemma same_size_dims i i' :
  same_size i i' ->
  sprite_width (sprite (base i')) = sprite_width (sprite (base i))
  /\ sprite_height (sprite (base i')) = sprite_height (sprite (base i)).
Proof. unfold same_size, sprite_width, sprite_height. intros [-> ->]. auto. Qed.

Lemma after_callback_same_size cb b i : same_size i (after_callback cb b i).
Proof.
  destruct cb as [a|a]; simpl; destruct (Nat.eqb a b); try apply same_size_refl.
  - unfold same_size. rewrite base_set_base. simpl. auto.
  - destruct i; try apply same_size_refl. split; reflexivity.
Qed.

Lemma after_callbacks_same_size cbs b : forall i, same_size i (after_callbacks cbs b i).
Proof.
  induction cbs as [|[t cb] rest IH]; intros i; simpl.
  - apply same_size_refl.
  - eapply same_size_trans; [apply after_callback_same_size|apply IH].
Qed.

Lemma steered_same_sprite_size k g dt :
  sprite_image (sprite (steered k g dt)) = sprite_image (sprite g)
  /\ sprite_scale (sprite (steered k g dt)) = sprite_scale (sprite g).
Proof.
  unfold steered.
  destruct (k left_key && negb (k right_key)); [split; reflexivity|].
  destruct (k right_key && negb (k left_key)); split; reflexivity.
Qed.

Lemma after_event_same_size e w b i :
  is_explode_of b e = false -> same_size i (after_event e w b i).
Proof.
  intros Hne. destruct e; simpl in *;
    try apply same_size_refl;
    try apply after_callbacks_same_size;
    try apply after_callback_same_size;
    try (rewrite Hne; apply same_size_refl);
    match goal with |- context [Nat.eqb ?x b] => destruct (Nat.eqb x b) end;
    try apply same_size_refl;
    destruct i; try apply same_size_refl; unfold same_size; simpl; auto.
  apply steered_same_sprite_size.
Qed.

Lemma run_events_same_size es a : forall w u w' i,
  forallb (fun e => negb (is_explode_of a e)) es = true ->
  run_events es w = Some (u, w') ->
  lookup w a = Some i ->
  exists i', lookup w' a = Some i' /\ same_size i i'.
Proof.
  induction es as [|e rest IH]; intros w u w' i Hes H Ha.
  - simpl in H. unfold ret in H. inversion H; subst.
    exists i. split; [auto|apply same_size_refl].
  - simpl in Hes. apply andb_true_iff in Hes. destruct Hes as [He Hrest].
    apply negb_true_iff in He.
    apply run_events_cons in H. destruct H as [w1 [H1 H2]].
    apply run_event_effect in H1. destruct H1 as (_ & _ & _ & _ & O).
    specialize (O _ _ Ha).
    destruct (IH _ _ _ _ Hrest H2 O) as [i' [Hi' G]].
    exists i'. split; [exact Hi'|].
    eapply same_size_trans; [apply after_event_same_size; exact He|exact G].
Qed.

(** C6, as amended.  No run of operations in which [explode] is not
    called on an object changes the width or the height of its sprite;
    [explode] replaces the sprite by a sprite of the explosion image at
    the same anchor and at scale 1, so that afterwards the width and the
    height are those of the explosion image. *)
Theorem size_changes_only_by_explode (es : list Event) (w w' : World)
    (a : addr) (i : Instance) :
  lookup w a = Some i ->
  run_events es w = Some (tt, w') ->
  (forallb (fun e => negb (is_explode_of a e)) es = true ->
   exists i', lookup w' a = Some i'
     /\ sprite_width (sprite (base i')) = sprite_width (sprite (base i))
     /\ sprite_height (sprite (base i')) = sprite_height (sprite (base i)))
  /\ (exists w1 i1,
        explode a w = Some (tt, w1)
        /\ lookup w1 a = Some i1
        /\ sprite_width (sprite (base i1)) = img_width explosion_png * 1
        /\ sprite_height (sprite (base i1)) = img_height explosion_png * 1
        /\ sprite_x (sprite (base i1)) = sprite_x (sprite (base i))
        /\ sprite_y (sprite (base i1)) = sprite_y (sprite (base i))).
Proof.
  intros Ha H. split.
  - intros Hes.
    destruct (run_events_same_size _ _ _ _ _ _ Hes H Ha) as [i' [Hi' S]].
    exists i'. split; [exact Hi'|]. apply same_size_dims. exact S.
  - eexists. eexists. split; [apply (explode_spec _ _ _ Ha)|].
    split.
    + unfold lookup. simpl. rewrite (nth_error_list_set_eqb _ a _ _ _ Ha).
      rewrite Nat.eqb_refl. reflexivity.
    + rewrite base_set_base. simpl. repeat split.
Qed.

(** ** Scheduled callbacks *)

Lemma cooldown_of_set_base i g : cooldown_of (set_base i g) = cooldown_of i.
Proof. destruct i; reflexivity. Qed.

Lemma pending_app p l1 l2 :
  pending_end_cooldown p (l1 ++ l2)
  = (pending_end_cooldown p l1 + pending_end_cooldown p l2)%nat.
Proof. unfold pending_end_cooldown. rewrite filter_app, length_app. reflexivity. Qed.

Lemma pending_split p (f : Q * Callback -> bool) l :
  pending_end_cooldown p l
  = (pending_end_cooldown p (filter f l)
     + pending_end_cooldown p (filter (fun it => negb (f it)) l))%nat.
Proof.
  unfold pending_end_cooldown.
  induction l as [|x rest IH]; simpl; [reflexivity|].
  destruct (f x); simpl; destruct (is_end_cooldown_of p x); simpl; lia.
Qed.

Lemma pending_zero_iff p l :
  pending_end_cooldown p l = 0%nat <-> forall t, ~ In (t, end_cooldown_cb p) l.
Proof.
  unfold pending_end_cooldown. induction l as [|[t cb] rest IH]; simpl.
  - split; auto.
  - unfold is_end_cooldown_of at 1. simpl.
    destruct cb as [a|a].
    + rewrite IH. split.
      * intros H t0 [E|I]; [discriminate|exact (H t0 I)].
      * intros H t0 I. apply (H t0). right. exact I.
    + destruct (Nat.eqb a p) eqn:E.
      * apply Nat.eqb_eq in E. subst. simpl. split; [discriminate|].
        intros H. exfalso. apply (H t). left. reflexivity.
      * rewrite IH. apply Nat.eqb_neq in E. split.
        -- intros H t0 [X|I]; [inversion X; congruence|exact (H t0 I)].
        -- intros H t0 I. apply (H t0). right. exact I.
Qed.

Lemma cooldown_after_callbacks cbs p : forall i,
  cooldown_of (after_callbacks cbs p i)
  = if Nat.eqb (pending_end_cooldown p cbs) 0 then cooldown_of i else false.
Proof.
  induction cbs as [|[t cb] rest IH]; intros i; simpl.
  - reflexivity.
  - change (fold_left (fun j it => after_callback (snd it) p j) rest
              (after_callback cb p i))
      with (after_callbacks rest p (after_callback cb p i)).
    rewrite IH. unfold pending_end_cooldown. simpl.
    unfold is_end_cooldown_of at 2. simpl.
    destruct cb as [a|a]; simpl.
    + destruct (Nat.eqb a p); [rewrite cooldown_of_set_base|]; reflexivity.
    + destruct (Nat.eqb a p); simpl.
      * destruct (Nat.eqb _ 0); [|reflexivity]. destruct i; reflexivity.
      * reflexivity.
Qed.

Lemma destroyed_after_callbacks cbs a : forall i,
  destroyed (base (after_callbacks cbs a i))
  = destroyed (base i) || existsb (is_destroy_of a) cbs.
Proof.
  induction cbs as [|[t cb] rest IH]; intros i; simpl.
  - rewrite orb_false_r. reflexivity.
  - change (fold_left (fun j it => after_callback (snd it) a j) rest
              (after_callback cb a i))
      with (after_callbacks rest a (after_callback cb a i)).
    rewrite IH. unfold is_destroy_of at 2. simpl.
    destruct cb as [b|b]; simpl.
    + destruct (Nat.eqb b a); simpl.
      * rewrite base_set_base. simpl. rewrite orb_true_r. reflexivity.
      * reflexivity.
    + destruct (Nat.eqb b a); [destruct i|]; reflexivity.
Qed.

(** What an event allocates, if anything, is a fresh object. *)
Lemma run_event_fresh e w u w' :
  run_event e w = Some (u, w') ->
  length (heap w') = length (heap w)
  \/ exists i, cooldown_of i = false
       /\ length (heap w') = S (length (heap w))
       /\ lookup w' (length (heap w)) = Some i.
Proof.
  intros H.
  assert (Hnew : forall (i : Instance) h, nth_error (h ++ [i]) (length h) = Some i).
  { intros i h. rewrite nth_error_app2, Nat.sub_diag; [reflexivity|lia]. }
  destruct e; simpl in H.
  - unfold clock_tick in H. apply run_callbacks_effect in H.
    destruct H as (_ & _ & _ & L & _). left. exact L.
  - apply set_keys_inv in H. destruct H as [g [k0 [c [_ ->]]]].
    left. simpl. apply length_list_set.
  - unfold bind, alloc, ret in H. inversion H; subst. right.
    eexists. split; [|split]; [|simpl; rewrite length_app; simpl; lia|apply Hnew].
    reflexivity.
  - unfold bind, Bullet_init, alloc, ret in H. inversion H; subst. right.
    eexists. split; [|split]; [|simpl; rewrite length_app; simpl; lia|apply Hnew].
    reflexivity.
  - unfold bind, Player_init, alloc, ret in H. inversion H; subst. right.
    eexists. split; [|split]; [|simpl; rewrite length_app; simpl; lia|apply Hnew].
    reflexivity.
  - unfold bind in H. destruct (has_hit a b w) as [[r w1]|] eqn:E; [|discriminate].
    apply has_hit_reads in E. destruct E as [-> _].
    unfold ret in H. inversion H; subst. left. reflexivity.
  - apply draw_inv in H. subst. left. reflexivity.
  - apply destroy_inv in H. destruct H as [i [_ ->]]. left. simpl. apply length_list_set.
  - apply explode_inv in H. destruct H as [i [_ ->]]. left. simpl. apply length_list_set.
  - apply Bullet_update_inv in H. destruct H as [g [_ ->]]. left. simpl. apply length_list_set.
  - apply Player_update_inv in H. destruct H as [g [k [c [Hi H]]]].
    rewrite (Player_update_spec _ _ _ _ _ _ Hi) in H. cbv zeta in H.
    destruct (k fire_key && negb c); inversion H; subst; clear H; simpl.
    + right. exists (IBullet (bullet_of (steered k g dt))).
      split; [reflexivity|].
      rewrite length_list_set, length_app, length_list_set. simpl.
      split; [lia|].
      unfold lookup. simpl. rewrite nth_error_list_set_ne.
      * rewrite <- (length_list_set (heap w) a (IPlayer (steered k g dt) k c)) at 1.
        apply Hnew.
      * assert (a < length (heap w))%nat by (apply nth_error_Some; unfold lookup in Hi; congruence).
        lia.
    + left. apply length_list_set.
  - apply move_inv in H. destruct H as [g [k [c [_ ->]]]]. left. simpl. apply length_list_set.
  - apply end_cooldown_inv in H. destruct H as [g [k [c [_ ->]]]]. left. simpl. apply length_list_set.
  - apply fire_inv in H. destruct H as [g [k [c [_ ->]]]]. right.
    eexists. split; [|split]; [|simpl; rewrite length_app; simpl; lia|apply Hnew].
    reflexivity.
Qed.

Lemma run_event_new_cooldown e w u w' b :
  run_event e w = Some (u, w') ->
  lookup w b = None -> cooldown_at w' b = false.
Proof.
  intros H Hb. apply lookup_None_length in Hb.
  unfold cooldown_at.
  destruct (run_event_fresh _ _ _ _ H) as [L|[i [C [L Hi]]]].
  - assert (lookup w' b = None) as -> by (apply lookup_None_length; lia). reflexivity.
  - destruct (Nat.eq_dec b (length (heap w))) as [->|Hne].
    + rewrite Hi. exact C.
    + assert (lookup w' b = None) as -> by (apply lookup_None_length; lia). reflexivity.
Qed.

(** ** The invariant of the schedule *)

Lemma pending_single_end p t a :
  pending_end_cooldown p [(t, end_cooldown_cb a)] = if Nat.eqb a p then 1%nat else 0%nat.
Proof.
  unfold pending_end_cooldown, is_end_cooldown_of. simpl.
  destruct (Nat.eqb a p); reflexivity.
Qed.

Lemma pending_single_destroy p t a :
  pending_end_cooldown p [(t, destroy_cb a)] = 0%nat.
Proof. reflexivity. Qed.

Lemma wf_empty : wf empty_world.
Proof.
  split.
  - intros p. unfold cooldown_at, lookup. simpl.
    destruct p; reflexivity.
  - intros a t [].
Qed.

Lemma wf_cooldown_step e w u w' p :
  clock_driven e = true ->
  run_event e w = Some (u, w') ->
  pending_end_cooldown p (clock_items w) = (if cooldown_at w p then 1 else 0)%nat ->
  pending_end_cooldown p (clock_items w') = (if cooldown_at w' p then 1 else 0)%nat.
Proof.
  intros Hcd H W1.
  pose proof (run_event_effect _ _ _ _ H) as (_ & I & _ & _ & O).
  rewrite I. unfold cooldown_at in *.
  destruct (lookup w p) as [i|] eqn:Hp.
  - rewrite (O _ _ Hp).
    destruct e; try discriminate Hcd; simpl items_after; simpl after_event.
    + (* tick *)
      rewrite cooldown_after_callbacks.
      rewrite (pending_split p (is_due (clock_now w + dt))) in W1.
      destruct (pending_end_cooldown p (filter (is_due (clock_now w + dt)) (clock_items w)));
        simpl; [exact W1|].
      destruct (cooldown_of i); simpl in W1; lia.
    + destruct (Nat.eqb p0 p); [destruct i|]; exact W1.
    + exact W1.
    + exact W1.
    + exact W1.
    + exact W1.
    + exact W1.
    + unfold after_callback. destruct (Nat.eqb a p); [rewrite cooldown_of_set_base|]; exact W1.
    + rewrite pending_app, pending_single_destroy, Nat.add_0_r.
      destruct (Nat.eqb a p); [rewrite cooldown_of_set_base|]; exact W1.
    + destruct (Nat.eqb a p); [destruct i|]; exact W1.
    + unfold fires. destruct (Nat.eqb a p) eqn:E.
      * apply Nat.eqb_eq in E. subst a. rewrite Hp.
        destruct i as [g|g|g k c]; try exact W1.
        simpl in *. destruct (k fire_key && negb c) eqn:F; [|exact W1].
        apply andb_true_iff in F. destruct F as [_ F]. apply negb_true_iff in F. subst c.
        rewrite pending_app, pending_single_end, Nat.eqb_refl, W1. reflexivity.
      * destruct (lookup w a) as [[g|g|g k c]|]; try exact W1.
        destruct (k fire_key && negb c); [|exact W1].
        rewrite pending_app, pending_single_end, E, Nat.add_0_r. exact W1.
    + destruct (Nat.eqb a p); [destruct i|]; exact W1.
    + exact W1.
  - pose proof (run_event_new_cooldown _ _ _ _ p H Hp) as C.
    unfold cooldown_at in C. rewrite C.
    destruct e; try discriminate Hcd; simpl items_after; try exact W1.
    + rewrite (pending_split p (is_due (clock_now w + dt))) in W1. lia.
    + rewrite pending_app, pending_single_destroy, Nat.add_0_r. exact W1.
    + unfold fires. destruct (lookup w a) as [[g|g|g k c]|] eqn:Ha; try exact W1.
      destruct (k fire_key && negb c); [|exact W1].
      rewrite pending_app, pending_single_end, W1.
      destruct (Nat.eqb a p) eqn:E; [|reflexivity].
      apply Nat.eqb_eq in E. subst. congruence.
Qed.

Lemma exploded_at_step e w u w' a :
  run_event e w = Some (u, w') -> exploded_at w a = true -> exploded_at w' a = true.
Proof.
  intros H X. unfold exploded_at in *.
  destruct (lookup w a) as [i|] eqn:Ha; [|discriminate].
  pose proof (run_event_effect _ _ _ _ H) as (_ & _ & _ & _ & O).
  rewrite (O _ _ Ha). apply (after_event_grown e w a i). exact X.
Qed.

Lemma wf_step e w u w' :
  clock_driven e = true -> wf w -> run_event e w = Some (u, w') -> wf w'.
Proof.
  intros Hcd [W1 W2] H. split.
  - intros p. apply (wf_cooldown_step e w u w' p Hcd H (W1 p)).
  - intros a t Hin.
    pose proof (run_event_effect _ _ _ _ H) as (_ & I & _ & _ & O).
    rewrite I in Hin.
    assert (Hold : In (t, destroy_cb a) (clock_items w) -> exploded_at w' a = true).
    { intros Hi. apply (exploded_at_step _ _ _ _ _ H). apply (W2 _ _ Hi). }
    destruct e; simpl in Hin; try (apply Hold; exact Hin).
    + apply filter_In in Hin. apply Hold. apply Hin.
    + apply in_app_or in Hin. destruct Hin as [Hi|[E|[]]]; [apply Hold; exact Hi|].
      inversion E; subst. simpl in H. apply explode_inv in H.
      destruct H as [i [Hi ->]]. unfold exploded_at, lookup. simpl.
      rewrite (nth_error_list_set_eqb _ a _ _ _ Hi), Nat.eqb_refl.
      rewrite base_set_base. reflexivity.
    + destruct (fires w a0); [|apply Hold; exact Hin].
      apply in_app_or in Hin. destruct Hin as [Hi|[E|[]]]; [apply Hold; exact Hi|].
      discriminate E.
Qed.

Lemma wf_steps es : forall w u w',
  forallb clock_driven es = true -> wf w -> run_events es w = Some (u, w') -> wf w'.
Proof.
  induction es as [|e rest IH]; intros w u w' Hes W H.
  - simpl in H. unfold ret in H. inversion H; subst. exact W.
  - simpl in Hes. apply andb_true_iff in Hes. destruct Hes as [He Hrest].
    apply run_events_cons in H. destruct H as [w1 [H1 H2]].
    apply (IH _ _ _ Hrest (wf_step _ _ _ _ He W H1) H2).
Qed.

(** ** Time and the clock *)

Lemma run_event_time e w u w' :
  forward e = true -> run_event e w = Some (u, w') -> clock_now w <= clock_now w'.
Proof.
  intros F H. pose proof (run_event_effect _ _ _ _ H) as (N & _).
  rewrite N. destruct e; simpl; try apply Qle_refl.
  simpl in F. apply Qle_bool_iff in F. lra.
Qed.

Lemma run_events_time es : forall w u w',
  forallb forward es = true -> run_events es w = Some (u, w') ->
  clock_now w <= clock_now w'.
Proof.
  induction es as [|e rest IH]; intros w u w' Hes H.
  - simpl in H. unfold ret in H. inversion H; subst. apply Qle_refl.
  - simpl in Hes. apply andb_true_iff in Hes. destruct Hes as [He Hrest].
    apply run_events_cons in H. destruct H as [w1 [H1 H2]].
    eapply Qle_trans; [apply (run_event_time _ _ _ _ He H1)|apply (IH _ _ _ Hrest H2)].
Qed.

Lemma game_loop_forward p e : game_loop_event p e = true -> forward e = true.
Proof. destruct e; simpl; auto. Qed.

Lemma game_loop_clock_driven p e : game_loop_event p e = true -> clock_driven e = true.
Proof. destruct e; simpl; auto. Qed.

Lemma leaves_destroy_forward a e : leaves_destroy_to_clock a e = true -> forward e = true.
Proof. destruct e; simpl; auto. Qed.

Lemma forallb_impl {A} (f g : A -> bool) l :
  (forall x, f x = true -> g x = true) -> forallb f l = true -> forallb g l = true.
Proof.
  intros Hfg. induction l as [|x rest IH]; simpl; [auto|].
  intros H. apply andb_true_iff in H. destruct H as [H1 H2].
  rewrite (Hfg _ H1), (IH H2). reflexivity.
Qed.

Lemma is_player_class i : class_of i = Player_class -> exists g k c, i = IPlayer g k c.
Proof. destruct i; try discriminate. eauto. Qed.

Lemma run_callback_total w cb :
  runnable w cb -> exists w', run_callback cb w = Some (tt, w').
Proof.
  destruct cb as [a|a]; simpl.
  - intros [i Hi]. eexists. apply (destroy_spec _ _ _ Hi).
  - intros [i [Hi C]]. destruct (is_player_class _ C) as [g [k [c ->]]].
    eexists. apply (end_cooldown_spec _ _ _ _ _ Hi).
Qed.

Lemma runnable_step cb0 w u w' cb :
  run_callback cb0 w = Some (u, w') -> runnable w cb -> runnable w' cb.
Proof.
  intros H R. apply run_callback_effect in H. destruct H as (_ & _ & _ & _ & O).
  destruct cb as [a|a]; simpl in *.
  - destruct R as [i Hi]. eexists. apply (O _ _ Hi).
  - destruct R as [i [Hi C]]. eexists. split; [apply (O _ _ Hi)|].
    rewrite <- C. apply after_callback_grown.
Qed.

Lemma run_callbacks_total cbs : forall w,
  (forall t cb, In (t, cb) cbs -> runnable w cb) ->
  exists w', run_callbacks cbs w = Some (tt, w').
Proof.
  induction cbs as [|[t cb] rest IH]; intros w R.
  - exists w. reflexivity.
  - destruct (run_callback_total w cb (R t cb (or_introl eq_refl))) as [w1 H1].
    destruct (IH w1) as [w' H'].
    { intros t0 cb0 Hin. apply (runnable_step _ _ _ _ _ H1). apply (R t0 cb0). right. exact Hin. }
    exists w'. simpl. unfold bind. rewrite H1. exact H'.
Qed.

Lemma pending_pos_In p l :
  pending_end_cooldown p l <> 0%nat -> exists t, In (t, end_cooldown_cb p) l.
Proof.
  unfold pending_end_cooldown. induction l as [|[t cb] rest IH]; simpl; [congruence|].
  unfold is_end_cooldown_of at 1. simpl. destruct cb as [a|a].
  - intros H. destruct (IH H) as [t0 H0]. eauto.
  - destruct (Nat.eqb a p) eqn:E.
    + apply Nat.eqb_eq in E. subst. intros _. eauto.
    + intros H. destruct (IH H) as [t0 H0]. eauto.
Qed.

Lemma wf_runnable w t cb : wf w -> In (t, cb) (clock_items w) -> runnable w cb.
Proof.
  intros [W1 W2] Hin. destruct cb as [a|a]; simpl.
  - specialize (W2 _ _ Hin). unfold exploded_at in W2.
    destruct (lookup w a) as [i|]; [eauto|discriminate].
  - specialize (W1 a). unfold cooldown_at in W1.
    destruct (lookup w a) as [i|].
    + exists i. split; [reflexivity|].
      destruct i; simpl in *; try reflexivity;
        exfalso; apply (proj1 (pending_zero_iff a (clock_items w)) W1 t Hin).
    + exfalso. apply (proj1 (pending_zero_iff a (clock_items w)) W1 t Hin).
Qed.

Lemma clock_tick_total w dt : wf w -> exists w', clock_tick dt w = Some (tt, w').
Proof.
  intros W. unfold clock_tick. apply run_callbacks_total.
  intros t cb Hin. apply filter_In in Hin. destruct Hin as [Hin _].
  destruct cb as [a|a]; simpl;
    pose proof (wf_runnable w t _ W Hin) as R; simpl in R; exact R.
Qed.

Lemma frames_total p dts : forall w,
  wf w ->
  (exists i, lookup w p = Some i /\ class_of i = Player_class) ->
  exists w', run_events (frames p dts) w = Some (tt, w').
Proof.
  induction dts as [|dt rest IH]; intros w W [i [Hi C]].
  - exists w. reflexivity.
  - destruct (clock_tick_total w dt W) as [w1 H1].
    assert (W1 : wf w1) by (apply (wf_step (EvTick dt) w tt w1 eq_refl W H1)).
    pose proof (run_event_effect (EvTick dt) _ _ _ H1) as (_ & _ & _ & _ & O1).
    specialize (O1 _ _ Hi).
    assert (C1 : class_of (after_event (EvTick dt) w p i) = Player_class).
    { rewrite <- C. apply after_event_grown. }
    destruct (is_player_class _ C1) as [g [k [c E]]]. rewrite E in O1.
    destruct (Player_update_runs w1 p g k c dt O1) as [w2 [H2 L2]].
    assert (W2 : wf w2) by (apply (wf_step (EvPlayerUpdate p dt) w1 tt w2 eq_refl W1 H2)).
    destruct (IH w2 W2) as [w' H'].
    { eexists. split; [exact L2|reflexivity]. }
    exists w'.
    change (run_events (frames p (dt :: rest)) w)
      with (bind (clock_tick dt)
              (fun _ => bind (Player_update p dt)
                          (fun _ => run_events (frames p rest))) w).
    unfold bind. rewrite H1, H2. exact H'.
Qed.

(** ** The cooldown of the player *)

Lemma frames_game_loop p dts :
  forallb (Qle_bool 0) dts = true -> forallb (game_loop_event p) (frames p dts) = true.
Proof.
  induction dts as [|dt rest IH]; simpl; [auto|].
  intros H. apply andb_true_iff in H. destruct H as [H1 H2].
  rewrite H1, Nat.eqb_refl. simpl. apply IH. exact H2.
Qed.

Lemma cooling_step p D B e w u w' :
  game_loop_event p e = true ->
  cooling p D B w ->
  run_event e w = Some (u, w') ->
  clock_now w' < D ->
  cooling p D B w'.
Proof.
  intros G (C & I & Bw) H Hnow.
  pose proof (run_event_effect _ _ _ _ H) as (N & It & Bt & _ & O).
  unfold cooling, cooldown_at in *.
  destruct (lookup w p) as [i|] eqn:Hp; [|discriminate].
  rewrite (O _ _ Hp), It, Bt. rewrite N in Hnow.
  destruct e; try discriminate G; simpl in *;
    try (split; [|split]; [first [exact C | destruct (Nat.eqb _ p); [destruct i|]; exact C
                                 | destruct (Nat.eqb _ p); [rewrite cooldown_of_set_base|]; exact C]
                          |exact I|exact Bw]).
  - (* tick *)
    split; [|split]; [| |exact Bw].
    + rewrite cooldown_after_callbacks.
      assert (Z : pending_end_cooldown p (filter (is_due (clock_now w + dt)) (clock_items w)) = 0%nat).
      { apply pending_zero_iff. intros t Hin. apply filter_In in Hin.
        destruct Hin as [Hin Hdue]. unfold is_due in Hdue. simpl in Hdue.
        apply Qle_bool_iff in Hdue. specialize (I _ Hin). lra. }
      rewrite Z. exact C.
    + intros t Hin. apply filter_In in Hin. apply I. apply Hin.
  - (* explode *)
    split; [|split]; [| |exact Bw].
    + destruct (Nat.eqb a p); [rewrite cooldown_of_set_base|]; exact C.
    + intros t Hin. apply in_app_or in Hin. destruct Hin as [Hin|[E|[]]]; [auto|discriminate].
  - (* update of the player *)
    apply Nat.eqb_eq in G. subst a. rewrite Nat.eqb_refl.
    unfold fires. rewrite Hp.
    destruct i as [g|g|g k c]; try discriminate C. simpl in C. subst c.
    rewrite andb_false_r. simpl. auto.
Qed.

Lemma cooling_steps p D B es : forall w u w',
  forallb (game_loop_event p) es = true ->
  cooling p D B w ->
  run_events es w = Some (u, w') ->
  clock_now w' < D ->
  cooling p D B w'.
Proof.
  induction es as [|e rest IH]; intros w u w' Hes C H Hnow.
  - simpl in H. unfold ret in H. inversion H; subst. exact C.
  - simpl in Hes. apply andb_true_iff in Hes. destruct Hes as [He Hrest].
    apply run_events_cons in H. destruct H as [w1 [H1 H2]].
    apply (IH w1 u w' Hrest); auto.
    apply (cooling_step p D B e w tt w1 He C H1).
    eapply Qle_lt_trans; [|exact Hnow].
    apply (run_events_time rest w1 u w'); [|exact H2].
    apply (forallb_impl _ _ _ (game_loop_forward p) Hrest).
Qed.

Lemma items_after_keeps e w x :
  (forall dt, e <> EvTick dt) -> In x (clock_items w) -> In x (items_after e w).
Proof.
  intros Ht Hin. destruct e; simpl; auto.
  - exfalso. apply (Ht dt). reflexivity.
  - apply in_or_app. auto.
  - destruct (fires w a); [apply in_or_app|]; auto.
Qed.

Lemma pending_of_In p t l : In (t, end_cooldown_cb p) l -> pending_end_cooldown p l <> 0%nat.
Proof.
  intros Hin Hz. apply (proj1 (pending_zero_iff p l) Hz t Hin).
Qed.

Lemma cooldown_stays_off e w p i :
  waits p e = true -> cooldown_of i = false ->
  cooldown_of (after_event e w p i) = false.
Proof.
  intros Hw Hc. destruct e; simpl in *; try exact Hc.
  - rewrite cooldown_after_callbacks, Hc. destruct (Nat.eqb _ 0); reflexivity.
  - destruct (Nat.eqb p0 p); [destruct i|]; exact Hc.
  - destruct (Nat.eqb a p); [rewrite cooldown_of_set_base|]; exact Hc.
  - destruct (Nat.eqb a p); [rewrite cooldown_of_set_base|]; exact Hc.
  - destruct (Nat.eqb a p); [destruct i|]; exact Hc.
  - apply negb_true_iff in Hw. rewrite Hw. exact Hc.
  - destruct (Nat.eqb a p); [destruct i|]; exact Hc.
  - destruct (Nat.eqb a p); [destruct i|]; try exact Hc. reflexivity.
Qed.

Lemma released_step p D e w u w' :
  waits p e = true ->
  released p D w ->
  run_event e w = Some (u, w') ->
  released p D w'.
Proof.
  intros Hw Hrel H.
  pose proof (run_event_effect _ _ _ _ H) as (N & I & _ & _ & O).
  assert (Hoff : cooldown_at w p = false -> cooldown_at w' p = false).
  { intros Hc. unfold cooldown_at in *.
    destruct (lookup w p) as [i|] eqn:Hp.
    - rewrite (O _ _ Hp). apply cooldown_stays_off; assumption.
    - apply (run_event_new_cooldown _ _ _ _ p H Hp). }
  destruct Hrel as [[Hnow Hin]|Hc]; [|right; apply Hoff; exact Hc].
  unfold released. rewrite N, I.
  destruct e as [dt| | | | | | | | | | | | | ];
    try (left; split; [exact Hnow|apply items_after_keeps; [discriminate|exact Hin]]).
  simpl. destruct (Qlt_le_dec (clock_now w + dt) D) as [Hlt|Hge].
  - left. split; [exact Hlt|]. apply filter_In. split; [exact Hin|].
    unfold is_due. simpl. apply negb_true_iff.
    destruct (Qle_bool D (clock_now w + dt)) eqn:X; [|reflexivity].
    apply Qle_bool_iff in X. lra.
  - right. unfold cooldown_at.
    destruct (lookup w p) as [i|] eqn:Hp.
    + rewrite (O _ _ Hp). simpl. rewrite cooldown_after_callbacks.
      assert (Hdue : In (D, end_cooldown_cb p)
                        (filter (is_due (clock_now w + dt)) (clock_items w))).
      { apply filter_In. split; [exact Hin|].
        unfold is_due. simpl. apply Qle_bool_iff. exact Hge. }
      apply pending_of_In in Hdue. apply Nat.eqb_neq in Hdue.
      rewrite Hdue. reflexivity.
    + apply (run_event_new_cooldown _ _ _ _ p H Hp).
Qed.

Lemma released_steps p D es : forall w u w',
  forallb (waits p) es = true ->
  released p D w ->
  run_events es w = Some (u, w') ->
  released p D w' /\ clock_now w <= clock_now w'.
Proof.
  induction es as [|e rest IH]; intros w u w' Hes R H.
  - simpl in H. unfold ret in H. inversion H; subst. split; [exact R|apply Qle_refl].
  - simpl in Hes. apply andb_true_iff in Hes. destruct Hes as [He Hrest].
    apply run_events_cons in H. destruct H as [w1 [H1 H2]].
    destruct (IH w1 u w' Hrest (released_step p D e w tt w1 He R H1) H2) as [R' T'].
    split; [exact R'|].
    eapply Qle_trans; [|exact T'].
    apply (run_event_time e w tt w1); [|exact H1].
    destruct e; simpl in *; auto.
Qed.

(** What is scheduled stays scheduled until the clock reaches its time. *)
Lemma scheduled_stays e w u w' D cb :
  run_event e w = Some (u, w') ->
  In (D, cb) (clock_items w) ->
  clock_now w' < D ->
  In (D, cb) (clock_items w').
Proof.
  intros H Hin Hnow.
  pose proof (run_event_effect _ _ _ _ H) as (N & I & _ & _ & _).
  rewrite I. rewrite N in Hnow.
  destruct e as [dt| | | | | | | | | | | | | ];
    try (apply items_after_keeps; [discriminate|exact Hin]).
  simpl in *. apply filter_In. split; [exact Hin|].
  unfold is_due. simpl. apply negb_true_iff.
  destruct (Qle_bool D (clock_now w + dt)) eqn:X; [|reflexivity].
  apply Qle_bool_iff in X. lra.
Qed.

Lemma scheduled_stays_steps D cb es : forall w u w',
  forallb forward es = true ->
  run_events es w = Some (u, w') ->
  In (D, cb) (clock_items w) ->
  clock_now w' < D ->
  In (D, cb) (clock_items w').
Proof.
  induction es as [|e rest IH]; intros w u w' Hes H Hin Hnow.
  - simpl in H. unfold ret in H. inversion H; subst. exact Hin.
  - simpl in Hes. apply andb_true_iff in Hes. destruct Hes as [He Hrest].
    apply run_events_cons in H. destruct H as [w1 [H1 H2]].
    apply (IH w1 u w' Hrest H2); [|exact Hnow].
    apply (scheduled_stays e w tt w1 D cb H1 Hin).
    eapply Qle_lt_trans; [|exact Hnow].
    apply (run_events_time rest w1 u w' Hrest H2).
Qed.

(** Only [end_cooldown], called by hand or fired by the clock, takes a
    player off cooldown. *)
Lemma cooldown_reset_only_by_end_cooldown p e w u w' :
  cooldown_at w p = true ->
  run_event e w = Some (u, w') ->
  cooldown_at w' p = false ->
  e = EvEndCooldown p
  \/ exists dt t, e = EvTick dt
       /\ In (t, end_cooldown_cb p) (clock_items w) /\ t <= clock_now w + dt.
Proof.
  intros C H C'.
  pose proof (run_event_effect _ _ _ _ H) as (_ & _ & _ & _ & O).
  unfold cooldown_at in *.
  destruct (lookup w p) as [i|] eqn:Hp; [|discriminate].
  rewrite (O _ _ Hp) in C'.
  destruct e; simpl in C';
    try (exfalso; congruence);
    try (destruct (Nat.eqb _ p) eqn:E;
           [first [rewrite cooldown_of_set_base in C' | destruct i; simpl in *]|];
           exfalso; congruence).
  - right. rewrite cooldown_after_callbacks in C'.
    destruct (Nat.eqb (pending_end_cooldown p (filter (is_due (clock_now w + dt)) (clock_items w))) 0) eqn:Z;
      [exfalso; congruence|].
    apply Nat.eqb_neq in Z. destruct (pending_pos_In _ _ Z) as [t Hin].
    apply filter_In in Hin. destruct Hin as [Hin Hdue].
    unfold is_due in Hdue. simpl in Hdue. apply Qle_bool_iff in Hdue.
    exists dt, t. auto.
  - destruct (Nat.eqb a p) eqn:E; [|exfalso; congruence].
    destruct i as [g|g|g k c]; simpl in *; try discriminate C. subst c.
    rewrite andb_false_r in C'. discriminate C'.
  - destruct (Nat.eqb a p) eqn:E; [|exfalso; congruence].
    apply Nat.eqb_eq in E. subst. left. reflexivity.
Qed.

(** C2.  A player who is ready (cooldown [False], in a world where
    [end_cooldown] is left to the clock) and is updated with the fire key
    held at time T produces exactly one bullet, goes on cooldown and
    schedules [end_cooldown] for T + [cooldown_time] (0.5).  However the
    game loop goes on from there, and in particular however many frames
    follow with the fire key still held, the bullet list stays as it is
    and the cooldown stays on as long as the simulated time is before
    T + [cooldown_time].  Such a run of frames always returns.  The tick
    that takes the time to T + [cooldown_time] runs the scheduled
    [end_cooldown], which puts the cooldown back to [False]: the player is
    ready again, and its next update with the fire key held produces the
    second bullet.  [end_cooldown] turns the cooldown off whenever it is
    called, and only [end_cooldown], called directly or fired by the clock
    when due, does so. *)
Theorem cooldown_gates_fire (w : World) (p : addr) (g : GameObject)
    (k : KeyStateHandler) (dt : Q) :
  wf w ->
  lookup w p = Some (IPlayer g k false) ->
  k fire_key = true ->
  exists w1 b,
    Player_update p dt w = Some (tt, w1)
    /\ window_bullets w1 = window_bullets w ++ [b]
    /\ lookup w b = None
    /\ (exists bg, lookup w1 b = Some (IBullet bg))
    /\ cooldown_at w1 p = true
    /\ clock_now w1 = clock_now w
    /\ clock_items w1 = clock_items w ++ [(clock_now w + cooldown_time, end_cooldown_cb p)]
    /\ cooldown_time == 0.5
    /\ (forall es w2,
          forallb (game_loop_event p) es = true ->
          run_events es w1 = Some (tt, w2) ->
          clock_now w2 < clock_now w + cooldown_time ->
          window_bullets w2 = window_bullets w1 /\ cooldown_at w2 p = true)
    /\ (forall dts,
          forallb (Qle_bool 0) dts = true ->
          exists w2,
            run_events (frames p dts) w1 = Some (tt, w2)
            /\ (clock_now w2 < clock_now w + cooldown_time ->
                window_bullets w2 = window_bullets w1 /\ cooldown_at w2 p = true))
    /\ (forall e w2 w3,
          cooldown_at w2 p = true ->
          run_event e w2 = Some (tt, w3) ->
          cooldown_at w3 p = false ->
          e = EvEndCooldown p
          \/ exists d t, e = EvTick d
               /\ In (t, end_cooldown_cb p) (clock_items w2) /\ t <= clock_now w2 + d)
    /\ (forall w2 g2 k2 c2,
          lookup w2 p = Some (IPlayer g2 k2 c2) ->
          exists w3,
            end_cooldown p w2 = Some (tt, w3)
            /\ lookup w3 p = Some (IPlayer g2 k2 false)
            /\ cooldown_at w3 p = false
            /\ window_bullets w3 = window_bullets w2
            /\ clock_items w3 = clock_items w2)
    /\ (forall es w2 d,
          forallb (game_loop_event p) es = true ->
          run_events es w1 = Some (tt, w2) ->
          clock_now w2 < clock_now w + cooldown_time ->
          clock_now w + cooldown_time <= clock_now w2 + d ->
          exists w3 g3 k3,
            clock_tick d w2 = Some (tt, w3)
            /\ lookup w3 p = Some (IPlayer g3 k3 false)
            /\ window_bullets w3 = window_bullets w1
            /\ (k3 fire_key = true ->
                forall dt', exists w4,
                  Player_update p dt' w3 = Some (tt, w4)
                  /\ window_bullets w4 = window_bullets w1 ++ [length (heap w3)]
                  /\ cooldown_at w4 p = true)).
Proof.
  intros W Hp Hk.
  destruct (Player_update_runs w p g k false dt Hp) as [w1 [H1 L1]].
  pose proof (run_event_effect (EvPlayerUpdate p dt) _ _ _ H1) as (N & I & B & _ & _).
  simpl in N, I, B. unfold fires in I, B. rewrite Hp, Hk in I, B. simpl in I, B.
  rewrite Hk in L1. simpl in L1.
  assert (W1 : wf w1) by (apply (wf_step (EvPlayerUpdate p dt) w tt w1 eq_refl W H1)).
  assert (C1 : cooldown_at w1 p = true) by (unfold cooldown_at; rewrite L1; reflexivity).
  assert (Hfresh : exists bg, lookup w1 (length (heap w)) = Some (IBullet bg)).
  { rewrite (Player_update_spec _ _ _ _ _ _ Hp) in H1. cbv zeta in H1.
    rewrite Hk in H1. simpl in H1. inversion H1; subst w1.
    exists (bullet_of (steered k g dt)). unfold lookup. simpl.
    assert (Hlt : (p < length (heap w))%nat)
      by (apply nth_error_Some; unfold lookup in Hp; congruence).
    rewrite nth_error_list_set_ne by lia.
    rewrite nth_error_app2 by (rewrite length_list_set; lia).
    rewrite length_list_set, Nat.sub_diag. reflexivity. }
  exists w1, (length (heap w)).
  split; [exact H1|]. split; [exact B|].
  split; [apply lookup_None_length; lia|].
  split; [exact Hfresh|]. split; [exact C1|]. split; [exact N|]. split; [exact I|].
  split; [reflexivity|].
  assert (Cool : cooling p (clock_now w + cooldown_time) (window_bullets w1) w1).
  { split; [exact C1|]. split; [|reflexivity].
    intros t Hin. rewrite I in Hin. apply in_app_or in Hin.
    destruct Hin as [Hin|[E|[]]].
    - exfalso. destruct W as [Wc _]. specialize (Wc p).
      unfold cooldown_at in Wc. rewrite Hp in Wc. simpl in Wc.
      apply (proj1 (pending_zero_iff p (clock_items w)) Wc t Hin).
    - inversion E. apply Qle_refl. }
  assert (Gate : forall es w2,
            forallb (game_loop_event p) es = true ->
            run_events es w1 = Some (tt, w2) ->
            clock_now w2 < clock_now w + cooldown_time ->
            window_bullets w2 = window_bullets w1 /\ cooldown_at w2 p = true).
  { intros es w2 Hes H2 Hnow.
    destruct (cooling_steps p _ _ es w1 tt w2 Hes Cool H2 Hnow) as (C2 & _ & B2).
    split; [exact B2|exact C2]. }
  split; [exact Gate|]. split; [|split; [|split]].
  - intros dts Hdts.
    destruct (frames_total p dts w1 W1) as [w2 H2].
    { eexists. split; [exact L1|reflexivity]. }
    exists w2. split; [exact H2|].
    apply (Gate (frames p dts)); [apply frames_game_loop; exact Hdts|exact H2].
  - intros e w2 w3. apply cooldown_reset_only_by_end_cooldown.
  - intros w2 g2 k2 c2 L2.
    pose proof (end_cooldown_spec _ _ _ _ _ L2) as E.
    match type of E with _ = Some (tt, ?x) => set (w3 := x) in * end.
    assert (L3 : lookup w3 p = Some (IPlayer g2 k2 false)).
    { unfold w3. rewrite (lookup_with_heap_set _ _ _ _ _ L2).
      destruct (Nat.eq_dec p p); congruence. }
    exists w3. split; [exact E|]. split; [exact L3|].
    split; [unfold cooldown_at; rewrite L3; reflexivity|].
    split; reflexivity.
  - intros es w2 d Hes H2 Hlt Hge.
    destruct (Gate es w2 Hes H2 Hlt) as [B2 C2].
    assert (Hfwd : forallb forward es = true)
      by (apply (forallb_impl _ _ _ (game_loop_forward p) Hes)).
    assert (Hin2 : In (clock_now w + cooldown_time, end_cooldown_cb p) (clock_items w2)).
    { apply (scheduled_stays_steps _ _ es w1 tt w2 Hfwd H2); [|exact Hlt].
      rewrite I. apply in_or_app. right. left. reflexivity. }
    assert (W2 : wf w2).
    { apply (wf_steps es w1 tt w2); [|exact W1|exact H2].
      apply (forallb_impl _ _ _ (game_loop_clock_driven p) Hes). }
    destruct (clock_tick_total w2 d W2) as [w3 H3].
    pose proof (run_event_effect (EvTick d) _ _ _ H3) as (N3 & _ & B3 & _ & O3).
    simpl in N3, B3.
    assert (Hd : Qle_bool 0 d = true) by (apply Qle_bool_iff; lra).
    assert (R3 : released p (clock_now w + cooldown_time) w3).
    { apply (released_step p _ (EvTick d) w2 tt w3 Hd); [|exact H3].
      left. split; [exact Hlt|exact Hin2]. }
    destruct (run_events_grown _ _ _ _ _ _ H2 L1) as [i2 [L2 G2]].
    pose proof (O3 _ _ L2) as L3.
    pose proof (after_event_grown (EvTick d) w2 p i2) as G3.
    destruct G2 as (Cl2 & _). destruct G3 as (Cl3 & _).
    rewrite Cl2 in Cl3. simpl in Cl3, L3.
    destruct (is_player_class _ Cl3) as [g3 [k3 [c3 E3]]].
    rewrite E3 in L3.
    assert (c3 = false).
    { destruct R3 as [[Hlt3 _]|Hc]; [rewrite N3 in Hlt3; lra|].
      unfold cooldown_at in Hc. rewrite L3 in Hc. exact Hc. }
    subst c3.
    exists w3, g3, k3. split; [exact H3|]. split; [exact L3|].
    split; [rewrite B3; exact B2|].
    intros Hk3 dt'.
    destruct (Player_update_runs w3 p g3 k3 false dt' L3) as [w4 [H4 L4]].
    rewrite Hk3 in L4. simpl in L4.
    exists w4. split; [exact H4|].
    pose proof (run_event_effect (EvPlayerUpdate p dt') _ _ _ H4) as (_ & _ & B4 & _ & _).
    simpl in B4. unfold fires in B4. rewrite L3, Hk3 in B4. simpl in B4.
    split; [rewrite B4, B3, B2; reflexivity|].
    unfold cooldown_at. rewrite L4. reflexivity.
Qed.

(** ** Explosions *)

Lemma destroyed_after_event e w a i :
  (forall dt, e <> EvTick dt) -> e <> EvDestroy a ->
  destroyed (base (after_event e w a i)) = destroyed (base i).
Proof.
  intros Ht Hd. destruct e; simpl; try reflexivity.
  - exfalso. apply (Ht dt). reflexivity.
  - destruct (Nat.eqb p a); [destruct i|]; reflexivity.
  - destruct (Nat.eqb a0 a) eqn:E; [|reflexivity].
    apply Nat.eqb_eq in E. subst. congruence.
  - destruct (Nat.eqb a0 a); [rewrite base_set_base|]; reflexivity.
  - destruct (Nat.eqb a0 a); [destruct i|]; reflexivity.
  - destruct (Nat.eqb a0 a); [destruct i|]; try reflexivity.
    simpl. apply steered_flags.
  - destruct (Nat.eqb a0 a); [destruct i|]; reflexivity.
  - destruct (Nat.eqb a0 a); [destruct i|]; reflexivity.
Qed.

Lemma items_after_destroy e w a t :
  (forall dt, e <> EvTick dt) ->
  In (t, destroy_cb a) (items_after e w) ->
  In (t, destroy_cb a) (clock_items w)
  \/ t = clock_now w + explosion_time GameObject_class.
Proof.
  intros Ht Hin. destruct e; simpl in Hin; auto.
  - exfalso. apply (Ht dt). reflexivity.
  - apply in_app_or in Hin. destruct Hin as [Hin|[E|[]]]; [auto|].
    inversion E. auto.
  - destruct (fires w a0); [|auto].
    apply in_app_or in Hin. destruct Hin as [Hin|[E|[]]]; [auto|discriminate].
Qed.

Lemma exploding_step a T D e w u w' :
  D <= T + explosion_time GameObject_class ->
  leaves_destroy_to_clock a e = true ->
  exploding a T D w ->
  run_event e w = Some (u, w') ->
  exploding a T D w'.
Proof.
  intros HD L (HT & Hex & Hcase) H.
  pose proof (run_event_time _ _ _ _ (leaves_destroy_forward _ _ L) H) as Hmono.
  pose proof (run_event_effect _ _ _ _ H) as (N & I & _ & _ & O).
  destruct (lookup w a) as [i|] eqn:Ha; [clear Hex|congruence].
  specialize (O _ _ Ha).
  assert (Hgrown := after_event_grown e w a i).
  split; [eapply Qle_trans; eassumption|].
  split; [congruence|].
  unfold destroyed_at in *. rewrite O. rewrite Ha in Hcase.
  destruct Hcase as [(Hnow & Hd & Hin & Hall)|(Hnow & Hd)].
  2:{ right. split; [eapply Qle_trans; eassumption|]. apply Hgrown. exact Hd. }
  destruct e as [dt| | | | | | | | | | | | | ];
    try (left; rewrite N, I; simpl now_after;
         split; [exact Hnow|];
         split; [rewrite destroyed_after_event; [exact Hd|discriminate|
                   first [discriminate
                         | simpl in L; apply negb_true_iff, Nat.eqb_neq in L; congruence]]|];
         split; [apply items_after_keeps; [discriminate|exact Hin]|];
         intros t Ht; apply items_after_destroy in Ht; [|discriminate];
         destruct Ht as [Ht| ->]; [apply Hall; exact Ht|lra]).
  (* tick *)
  rewrite N, I. simpl. simpl in L. apply Qle_bool_iff in L.
  rewrite destroyed_after_callbacks, Hd. simpl.
  destruct (Qlt_le_dec (clock_now w + dt) D) as [Hlt|Hge].
  - left. split; [exact Hlt|]. split; [|split].
    + destruct (existsb _ _) eqn:X; [|reflexivity].
      exfalso. apply existsb_exists in X. destruct X as [[t cb] [Hx Hc]].
      apply filter_In in Hx. destruct Hx as [Hx Hdue].
      unfold is_destroy_of in Hc. simpl in Hc. destruct cb as [b|b]; [|discriminate].
      apply Nat.eqb_eq in Hc. subst b.
      unfold is_due in Hdue. simpl in Hdue. apply Qle_bool_iff in Hdue.
      specialize (Hall _ Hx). lra.
    + apply filter_In. split; [exact Hin|].
      unfold is_due. simpl. apply negb_true_iff.
      destruct (Qle_bool D (clock_now w + dt)) eqn:X; [|reflexivity].
      apply Qle_bool_iff in X. lra.
    + intros t Ht. apply filter_In in Ht. apply Hall. apply Ht.
  - right. split; [exact Hge|].
    apply existsb_exists. exists (D, destroy_cb a). split.
    + apply filter_In. split; [exact Hin|].
      unfold is_due. simpl. apply Qle_bool_iff. exact Hge.
    + unfold is_destroy_of. simpl. apply Nat.eqb_refl.
Qed.

Lemma exploding_steps a T D es : forall w u w',
  D <= T + explosion_time GameObject_class ->
  forallb (leaves_destroy_to_clock a) es = true ->
  exploding a T D w ->
  run_events es w = Some (u, w') ->
  exploding a T D w'.
Proof.
  induction es as [|e rest IH]; intros w u w' HD Hes X H.
  - simpl in H. unfold ret in H. inversion H; subst. exact X.
  - simpl in Hes. apply andb_true_iff in Hes. destruct Hes as [He Hrest].
    apply run_events_cons in H. destruct H as [w1 [H1 H2]].
    apply (IH w1 u w' HD Hrest); [|exact H2].
    apply (exploding_step a T D e w tt w1 HD He X H1).
Qed.

Lemma ticks_total dts : forall w,
  wf w -> exists w', run_events (ticks dts) w = Some (tt, w').
Proof.
  induction dts as [|dt rest IH]; intros w W.
  - exists w. reflexivity.
  - destruct (clock_tick_total w dt W) as [w1 H1].
    assert (W1 : wf w1) by (apply (wf_step (EvTick dt) w tt w1 eq_refl W H1)).
    destruct (IH w1 W1) as [w' H'].
    exists w'.
    change (run_events (ticks (dt :: rest)) w)
      with (bind (clock_tick dt) (fun _ => run_events (ticks rest)) w).
    unfold bind. rewrite H1. exact H'.
Qed.

Lemma ticks_leave_destroy a dts :
  forallb (Qle_bool 0) dts = true ->
  forallb (leaves_destroy_to_clock a) (ticks dts) = true.
Proof.
  induction dts as [|dt rest IH]; simpl; [auto|].
  intros H. apply andb_true_iff in H. destruct H as [H1 H2].
  rewrite H1. simpl. apply IH. exact H2.
Qed.

Lemma doomed_step a D e w u w' i :
  lookup w a = Some i ->
  doomed a D w ->
  run_event e w = Some (u, w') ->
  doomed a D w'.
Proof.
  intros Ha Hd H.
  pose proof (run_event_effect _ _ _ _ H) as (N & _ & _ & _ & O).
  specialize (O _ _ Ha).
  destruct Hd as [[Hnow Hin]|Hd].
  2:{ right. unfold destroyed_at in *. rewrite O. rewrite Ha in Hd.
      apply (after_event_grown e w a i). exact Hd. }
  destruct (Qlt_le_dec (clock_now w') D) as [Hlt|Hge].
  - left. split; [exact Hlt|]. apply (scheduled_stays e w u w' D _ H Hin Hlt).
  - right. rewrite N in Hge.
    destruct e as [dt| | | | | | | | | | | | | ]; try (simpl in Hge; lra).
    simpl in Hge. unfold destroyed_at. rewrite O. simpl.
    rewrite destroyed_after_callbacks.
    apply orb_true_iff. right. apply existsb_exists.
    exists (D, destroy_cb a). split.
    + apply filter_In. split; [exact Hin|].
      unfold is_due. simpl. apply Qle_bool_iff. exact Hge.
    + unfold is_destroy_of. simpl. apply Nat.eqb_refl.
Qed.

Lemma doomed_steps a D es : forall w u w' i,
  lookup w a = Some i ->
  doomed a D w ->
  run_events es w = Some (u, w') ->
  doomed a D w'.
Proof.
  induction es as [|e rest IH]; intros w u w' i Ha Hd H.
  - simpl in H. unfold ret in H. inversion H; subst. exact Hd.
  - apply run_events_cons in H. destruct H as [w1 [H1 H2]].
    pose proof (run_event_effect _ _ _ _ H1) as (_ & _ & _ & _ & O).
    apply (IH w1 u w' _ (O _ _ Ha)); [|exact H2].
    apply (doomed_step a D e w tt w1 i Ha Hd H1).
Qed.

(** C3.  [explode] called at time T on any object sets [exploded] at once,
    leaves [destroyed] as it is and schedules [destroy] for
    T + [explosion_time] (0.2).  Whatever happens next, the object stays
    exploded and is destroyed at every later state in which the simulated
    time has reached T + [explosion_time]; clock ticks always run, so the
    time does get there and the transition cannot be skipped.  That the
    object is not destroyed while the time is before T + [explosion_time]
    holds for an object that was live when [explode] was called (not
    exploded, so that no earlier [destroy] is pending, and not destroyed),
    short of a direct call of [destroy] on it: [explode] has no guard. *)
Theorem explode_then_destroy (w : World) (a : addr) (i : Instance) :
  wf w ->
  lookup w a = Some i ->
  let D := clock_now w + explosion_time (class_of i) in
  exists w1,
    explode a w = Some (tt, w1)
    /\ exploded_at w1 a = true
    /\ destroyed_at w1 a = destroyed (base i)
    /\ clock_now w1 = clock_now w
    /\ clock_items w1 = clock_items w ++ [(D, destroy_cb a)]
    /\ explosion_time (class_of i) == 0.2
    /\ (forall es w2,
          run_events es w1 = Some (tt, w2) ->
          exploded_at w2 a = true
          /\ (D <= clock_now w2 -> destroyed_at w2 a = true))
    /\ (exploded (base i) = false ->
        destroyed (base i) = false ->
        forall es w2,
          forallb (leaves_destroy_to_clock a) es = true ->
          run_events es w1 = Some (tt, w2) ->
          clock_now w2 < D -> destroyed_at w2 a = false)
    /\ (forall dts,
          forallb (Qle_bool 0) dts = true ->
          exists w2,
            run_events (ticks dts) w1 = Some (tt, w2)
            /\ exploded_at w2 a = true
            /\ (D <= clock_now w2 -> destroyed_at w2 a = true)
            /\ (exploded (base i) = false ->
                destroyed (base i) = false ->
                clock_now w2 < D -> destroyed_at w2 a = false)).
Proof.
  intros W Ha D.
  pose proof (explode_spec _ _ _ Ha) as H1.
  match type of H1 with _ = Some (tt, ?x) => set (w1 := x) in * end.
  assert (L1 : lookup w1 a = Some (set_base i (blown_up (class_of i) (base i)))).
  { unfold w1, lookup. simpl. rewrite (nth_error_list_set_eqb _ a _ _ _ Ha), Nat.eqb_refl.
    reflexivity. }
  assert (W1 : wf w1) by (apply (wf_step (EvExplode a) w tt w1 eq_refl W H1)).
  assert (E1 : exploded_at w1 a = true).
  { unfold exploded_at. rewrite L1, base_set_base. reflexivity. }
  assert (D1 : destroyed_at w1 a = destroyed (base i)).
  { unfold destroyed_at. rewrite L1, base_set_base. reflexivity. }
  assert (Hin1 : In (D, destroy_cb a) (clock_items w1)).
  { unfold w1. simpl. apply in_or_app. right. left. reflexivity. }
  assert (Hlt1 : clock_now w1 < D).
  { unfold w1, D, explosion_time. simpl. lra. }
  assert (Late : forall es w2,
            run_events es w1 = Some (tt, w2) ->
            exploded_at w2 a = true
            /\ (D <= clock_now w2 -> destroyed_at w2 a = true)).
  { intros es w2 H2. split.
    - destruct (run_events_grown _ _ _ _ _ _ H2 L1) as [i2 [L2 (_ & G & _)]].
      unfold exploded_at. rewrite L2. apply G. rewrite base_set_base. reflexivity.
    - intros Hge.
      assert (Dm : doomed a D w1) by (left; split; [exact Hlt1|exact Hin1]).
      destruct (doomed_steps a D es w1 tt w2 _ L1 Dm H2) as [[Hlt _]|Hd];
        [lra|exact Hd]. }
  assert (Early : exploded (base i) = false ->
                  destroyed (base i) = false ->
                  forall es w2,
                    forallb (leaves_destroy_to_clock a) es = true ->
                    run_events es w1 = Some (tt, w2) ->
                    clock_now w2 < D -> destroyed_at w2 a = false).
  { intros He Hd es w2 Hes H2 Hlt.
    assert (X1 : exploding a (clock_now w) D w1).
    { split; [apply Qle_refl|]. split; [congruence|]. left.
      split; [exact Hlt1|].
      split; [rewrite D1; exact Hd|]. split; [exact Hin1|].
      intros t Hin. unfold w1 in Hin. simpl in Hin. apply in_app_or in Hin.
      destruct Hin as [Hin|[E|[]]].
      + exfalso. destruct W as [_ Wd]. specialize (Wd _ _ Hin).
        unfold exploded_at in Wd. rewrite Ha in Wd. congruence.
      + inversion E. apply Qle_refl. }
    assert (HD : D <= clock_now w + explosion_time GameObject_class) by apply Qle_refl.
    destruct (exploding_steps a _ D es w1 tt w2 HD Hes X1 H2) as (_ & _ & Hcase).
    destruct Hcase as [(_ & Hf & _)|(Hge & _)]; [exact Hf|lra]. }
  exists w1. split; [exact H1|]. split; [exact E1|]. split; [exact D1|].
  split; [reflexivity|]. split; [reflexivity|]. split; [reflexivity|].
  split; [exact Late|]. split; [exact Early|].
  intros dts Hdts. destruct (ticks_total dts w1 W1) as [w2 H2].
  exists w2. split; [exact H2|].
  destruct (Late (ticks dts) w2 H2) as [E2 L2].
  split; [exact E2|]. split; [exact L2|].
  intros He Hd. apply (Early He Hd (ticks dts) w2 (ticks_leave_destroy a dts Hdts) H2).
Qed.

(** A world with an empty schedule and nobody on cooldown is well formed. *)
Lemma wf_quiet w :
  clock_items w = [] ->
  forallb (fun i => negb (cooldown_of i)) (heap w) = true ->
  wf w.
Proof.
  intros Hi Hc. split.
  - intros p. rewrite Hi. unfold cooldown_at, lookup.
    destruct (nth_error (heap w) p) as [i|] eqn:E; [|reflexivity].
    apply nth_error_In in E.
    rewrite forallb_forall in Hc. specialize (Hc _ E).
    apply negb_true_iff in Hc. rewrite Hc. reflexivity.
  - intros a t Hin. rewrite Hi in Hin. destruct Hin.
Qed.


(** ** More about collisions *)

(** X1.  No object hits itself, and more generally an object whose anchor
    coincides with the anchor of another one does not hit it: the test is
    strict on the lower and on the left side. *)
Theorem has_hit_never_self (w : World) (a b : addr) (ia ib : Instance) :
  lookup w a = Some ia ->
  lookup w b = Some ib ->
  has_hit a a w = Some (false, w)
  /\ (sprite_x (sprite (base ia)) == sprite_x (sprite (base ib))
      \/ sprite_y (sprite (base ia)) == sprite_y (sprite (base ib)) ->
      has_hit a b w = Some (false, w)).
Proof.
  intros Ha Hb. split.
  - destruct (has_hit_run w a a ia ia Ha Ha) as [r [Hr Hiff]].
    rewrite Hr. destruct r; [|reflexivity].
    exfalso. destruct Hiff as [Hin _]. destruct (Hin eq_refl) as [[H _] _].
    exact (Qlt_irrefl _ H).
  - intros Hsame.
    destruct (has_hit_run w a b ia ib Ha Hb) as [r [Hr Hiff]].
    rewrite Hr. destruct r; [|reflexivity].
    exfalso. destruct Hiff as [Hin _]. destruct (Hin eq_refl) as [[Hx _] [Hy _]].
    destruct Hsame as [E|E]; rewrite E in *; eapply Qlt_irrefl; eassumption.
Qed.

(** X2.  A target whose sprite has no extent (width or height zero or
    negative, as with a scale of 0) is never hit, wherever the anchor of
    the other object is. *)
Theorem has_hit_degenerate_target (w : World) (a b : addr) (ia ib : Instance) :
  lookup w a = Some ia ->
  lookup w b = Some ib ->
  sprite_width (sprite (base ib)) <= 0 \/ sprite_height (sprite (base ib)) <= 0 ->
  has_hit a b w = Some (false, w).
Proof.
  intros Ha Hb Hdeg.
  destruct (has_hit_run w a b ia ib Ha Hb) as [r [Hr Hiff]].
  rewrite Hr. destruct r; [|reflexivity].
  exfalso. destruct Hiff as [Hin _].
  destruct (Hin eq_refl) as [[Hx1 Hx2] [Hy1 Hy2]].
  destruct Hdeg as [Hw|Hh]; lra.
Qed.

Lemma inside_sprites s o s' o' :
  sprite s' = sprite s -> sprite o' = sprite o -> inside s o -> inside s' o'.
Proof. unfold inside. intros -> ->. auto. Qed.

Lemma has_hit_by_sprites w1 w2 a b ia ib ja jb r :
  lookup w1 a = Some ia -> lookup w1 b = Some ib ->
  lookup w2 a = Some ja -> lookup w2 b = Some jb ->
  sprite (base ja) = sprite (base ia) ->
  sprite (base jb) = sprite (base ib) ->
  has_hit a b w1 = Some (r, w1) ->
  has_hit a b w2 = Some (r, w2).
Proof.
  intros A1 B1 A2 B2 Sa Sb H1.
  destruct (has_hit_run w1 a b ia ib A1 B1) as [r1 [Hr1 I1]].
  destruct (has_hit_run w2 a b ja jb A2 B2) as [r2 [Hr2 I2]].
  rewrite Hr1 in H1. inversion H1; subst r1. rewrite Hr2.
  assert (r2 = r); [|subst; reflexivity].
  destruct r, r2; try reflexivity.
  - apply (proj2 I2). apply (inside_sprites (base ia) (base ib)); auto.
    apply (proj1 I1). reflexivity.
  - symmetry. apply (proj2 I1). apply (inside_sprites (base ja) (base jb)); auto.
    apply (proj1 I2). reflexivity.
Qed.

(** X3.  [has_hit] looks at the two sprites only, never at [exploded] or
    [destroyed]: once either object has been destroyed the test still
    runs and gives the same answer as before. *)
Theorem has_hit_ignores_destroyed (w : World) (a b c : addr) (r : bool) :
  has_hit a b w = Some (r, w) ->
  c = a \/ c = b ->
  exists w1,
    destroy c w = Some (tt, w1)
    /\ destroyed_at w1 c = true
    /\ has_hit a b w1 = Some (r, w1).
Proof.
  intros H Hc.
  destruct (lookup w a) as [ia|] eqn:Ha.
  2:{ exfalso. unfold has_hit in H. no_object H Ha. }
  destruct (lookup w b) as [ib|] eqn:Hb.
  2:{ exfalso. unfold has_hit in H. cbv beta delta [bind load_obj] in H.
      rewrite (load_Some _ _ _ Ha) in H. cbv beta iota in H. unfold ret at 1 in H.
      rewrite (load_None _ _ Hb) in H. discriminate H. }
  assert (Hic : exists ic, lookup w c = Some ic)
    by (destruct Hc; subst; eauto).
  destruct Hic as [ic Hic].
  pose proof (destroy_spec _ _ _ Hic) as Hd.
  match type of Hd with _ = Some (tt, ?x) => set (w1 := x) in * end.
  pose proof (run_event_effect (EvDestroy c) w tt w1 Hd) as (_ & _ & _ & _ & O).
  exists w1. split; [exact Hd|]. split.
  - unfold destroyed_at. rewrite (O _ _ Hic). simpl. rewrite Nat.eqb_refl.
    rewrite base_set_base. reflexivity.
  - apply (has_hit_by_sprites w w1 a b ia ib _ _ r Ha Hb (O _ _ Ha) (O _ _ Hb)); auto;
      simpl; destruct (Nat.eqb c _); try rewrite base_set_base; reflexivity.
Qed.

(** ** More about bullets *)

Lemma Bullet_updates_closed_form a dts : forall w g,
  lookup w a = Some (IBullet g) ->
  exists w' g',
    run_events (Bullet_updates a dts) w = Some (tt, w')
    /\ lookup w' a = Some (IBullet g')
    /\ sprite_y (sprite g') == sprite_y (sprite g) + Bullet_speed * Qsum dts
    /\ sprite_x (sprite g') = sprite_x (sprite g)
    /\ sprite_image (sprite g') = sprite_image (sprite g)
    /\ sprite_scale (sprite g') = sprite_scale (sprite g)
    /\ exploded g' = exploded g /\ destroyed g' = destroyed g
    /\ clock_now w' = clock_now w
    /\ clock_items w' = clock_items w
    /\ window_bullets w' = window_bullets w
    /\ (forall b i, b <> a -> lookup w b = Some i -> lookup w' b = Some i).
Proof.
  induction dts as [|dt rest IH]; intros w g H.
  - exists w, g. simpl. repeat split; auto. ring.
  - destruct (Bullet_update_runs w a g dt H) as [w1 [R1 [L1 [N1 [I1 B1]]]]].
    pose proof (run_event_effect (EvBulletUpdate a dt) w tt w1 R1) as (_ & _ & _ & _ & O1).
    destruct (IH _ _ L1) as [w' [g' (R & L & Y & X & Im & Sc & E & D & N & I & B & O)]].
    exists w', g'. simpl. unfold bind. rewrite R1.
    split; [exact R|]. split; [exact L|].
    simpl in *. repeat split; try congruence.
    + rewrite Y. ring.
    + intros b i Hne Hb. apply O; [exact Hne|].
      rewrite (O1 _ _ Hb). simpl.
      destruct (Nat.eqb a b) eqn:Eab; [|reflexivity].
      apply Nat.eqb_eq in Eab. congruence.
Qed.

Lemma Qsum_nonneg dts : Forall (fun d => 0 <= d) dts -> 0 <= Qsum dts.
Proof.
  induction 1 as [|d rest Hd _ IH]; simpl; [apply Qle_refl|lra].
Qed.

(** X5.  A bullet that is outside the horizontal span of a target, or at
    or above its top edge, never hits it, however long it goes on flying:
    updates leave x alone and only raise y. *)
Theorem bullet_never_hits (w : World) (a b : addr) (g : GameObject)
    (ib : Instance) (dts : list Q) :
  lookup w a = Some (IBullet g) ->
  lookup w b = Some ib ->
  a <> b ->
  Forall (fun d => 0 <= d) dts ->
  (sprite_x (sprite g) <= sprite_x (sprite (base ib))
   \/ sprite_x (sprite (base ib)) + sprite_width (sprite (base ib)) <= sprite_x (sprite g)
   \/ sprite_y (sprite (base ib)) + sprite_height (sprite (base ib)) <= sprite_y (sprite g)) ->
  exists w',
    run_events (Bullet_updates a dts) w = Some (tt, w')
    /\ has_hit a b w' = Some (false, w').
Proof.
  intros Ha Hb Hne Hpos Hout.
  destruct (Bullet_updates_closed_form a dts w g Ha)
    as [w' [g' (R & L & Y & X & _ & _ & _ & _ & _ & _ & _ & O)]].
  exists w'. split; [exact R|].
  assert (Hb' : lookup w' b = Some ib) by (apply O; auto).
  destruct (has_hit_run w' a b _ _ L Hb') as [r [Hr Hiff]].
  rewrite Hr. destruct r; [|reflexivity].
  exfalso. destruct Hiff as [Hin _].
  destruct (Hin eq_refl) as [[Hx1 Hx2] [Hy1 Hy2]]. simpl in *.
  rewrite X in Hx1, Hx2. rewrite Y in Hy2.
  pose proof (Qsum_nonneg dts Hpos) as Hs.
  assert (0 <= Bullet_speed * Qsum dts)
    by (apply Qmult_le_0_compat; [discriminate|exact Hs]).
  destruct Hout as [Hl|[Hr'|Ht]]; lra.
Qed.

(** ** More about the player *)

Lemma steered_idle k g dt : k left_key = k right_key -> steered k g dt = g.
Proof.
  intros E. unfold steered. rewrite E.
  destruct (k right_key); reflexivity.
Qed.

(** X6.  An update in which nothing is asked for changes nothing at all:
    with the two arrows both held or both released, and the fire key
    released or the player on cooldown, the world after [Player.update]
    is the world before. *)
Theorem player_update_idle (w : World) (p : addr) (g : GameObject)
    (k : KeyStateHandler) (c : bool) (dt : Q) :
  lookup w p = Some (IPlayer g k c) ->
  k left_key = k right_key ->
  k fire_key = false \/ c = true ->
  Player_update p dt w = Some (tt, w).
Proof.
  intros H Hk Hf.
  rewrite (Player_update_spec _ _ _ _ _ dt H). cbv zeta.
  rewrite (steered_idle k g dt Hk).
  assert (F : k fire_key && negb c = false).
  { destruct Hf as [-> | ->]; [reflexivity|apply andb_false_r]. }
  rewrite F. rewrite (with_heap_same _ _ _ H). reflexivity.
Qed.

(** X7.  In one update the player moves first and fires second, so the
    bullet leaves from the middle of the player where the player is after
    the move of this very tick, not where it was before. *)
Theorem fire_after_move (w : World) (p : addr) (g : GameObject)
    (k : KeyStateHandler) (dt : Q) :
  lookup w p = Some (IPlayer g k false) ->
  k fire_key = true ->
  exists w' g' bg,
    Player_update p dt w = Some (tt, w')
    /\ lookup w' p = Some (IPlayer g' k true)
    /\ lookup w' (length (heap w)) = Some (IBullet bg)
    /\ sprite_x (sprite bg) = sprite_x (sprite g') + sprite_width (sprite g') / 2
    /\ (k left_key = true -> k right_key = false ->
        sprite_x (sprite bg)
        == sprite_x (sprite g) - 150 * dt + sprite_width (sprite g) / 2)
    /\ (k left_key = false -> k right_key = true ->
        sprite_x (sprite bg)
        == sprite_x (sprite g) + 150 * dt + sprite_width (sprite g) / 2).
Proof.
  intros H Hk.
  pose proof (Player_update_spec _ _ _ _ _ dt H) as S. cbv zeta in S.
  rewrite Hk in S. simpl in S.
  destruct (Player_update_runs w p g k false dt H) as [w' [R L]].
  rewrite Hk in L. simpl in L.
  rewrite R in S. inversion S as [Hw]. clear S.
  assert (Hlt : (p < length (heap w))%nat)
    by (apply nth_error_Some; unfold lookup in H; congruence).
  exists w', (steered k g dt), (bullet_of (steered k g dt)).
  split; [exact R|]. split; [exact L|]. split.
  - rewrite Hw. unfold lookup. simpl.
    rewrite nth_error_list_set_ne by lia.
    rewrite nth_error_app2 by (rewrite length_list_set; lia).
    rewrite length_list_set, Nat.sub_diag. reflexivity.
  - split; [reflexivity|].
    unfold bullet_of, steered, moved, Player_speed, sprite_width. simpl.
    split; intros Hl Hr; rewrite Hl, Hr; simpl; field.
Qed.

Lemma lookup_after_set w a i x :
  lookup w a = Some x -> lookup (with_heap w (list_set (heap w) a i)) a = Some i.
Proof.
  intros H. rewrite (lookup_with_heap_set _ _ _ _ _ H).
  destruct (Nat.eq_dec a a); congruence.
Qed.

(** ** The end of the cooldown *)

(** X9.  The cooldown ends: after a shot at time T, if the player is not
    updated in between, then as soon as the clock has reached
    T + [cooldown_time] the player is off cooldown, and an update with the
    fire key held at that point fires one more bullet. *)
Theorem cooldown_released (w : World) (p : addr) (g : GameObject)
    (k : KeyStateHandler) (dt : Q) :
  lookup w p = Some (IPlayer g k false) ->
  k fire_key = true ->
  exists w1,
    Player_update p dt w = Some (tt, w1)
    /\ cooldown_at w1 p = true
    /\ forall es w2,
         forallb (waits p) es = true ->
         run_events es w1 = Some (tt, w2) ->
         clock_now w + cooldown_time <= clock_now w2 ->
         exists g2 k2,
           lookup w2 p = Some (IPlayer g2 k2 false)
           /\ (k2 fire_key = true ->
               forall dt', exists w3,
                 Player_update p dt' w2 = Some (tt, w3)
                 /\ window_bullets w3 = window_bullets w2 ++ [length (heap w2)]).
Proof.
  intros Hp Hk.
  destruct (Player_update_runs w p g k false dt Hp) as [w1 [H1 L1]].
  pose proof (run_event_effect (EvPlayerUpdate p dt) _ _ _ H1) as (N & I & _ & _ & _).
  simpl in N, I. unfold fires in I. rewrite Hp, Hk in I. simpl in I.
  rewrite Hk in L1. simpl in L1.
  exists w1. split; [exact H1|].
  split; [unfold cooldown_at; rewrite L1; reflexivity|].
  intros es w2 Hes H2 Hnow.
  assert (R1 : released p (clock_now w + cooldown_time) w1).
  { left. rewrite N, I. split; [unfold cooldown_time; lra|].
    apply in_or_app. right. left. reflexivity. }
  destruct (released_steps p _ es w1 tt w2 Hes R1 H2) as [R2 _].
  destruct (run_events_grown _ _ _ _ _ _ H2 L1) as [i2 [L2 (C2 & _ & _)]].
  destruct (is_player_class _ C2) as [g2 [k2 [c2 ->]]].
  assert (c2 = false).
  { destruct R2 as [[Hlt _]|Hc]; [lra|].
    unfold cooldown_at in Hc. rewrite L2 in Hc. exact Hc. }
  subst c2. exists g2, k2. split; [exact L2|].
  intros Hk2 dt'.
  destruct (Player_update_runs w2 p g2 k2 false dt' L2) as [w3 [H3 _]].
  exists w3. split; [exact H3|].
  pose proof (run_event_effect (EvPlayerUpdate p dt') _ _ _ H3) as (_ & _ & B & _ & _).
  simpl in B. unfold fires in B. rewrite L2, Hk2 in B. exact B.
Qed.

(** ** Worlds the game can reach *)

(** X10.  In every world reached from the empty one without calling
    [end_cooldown] by hand, a player is on cooldown exactly when one
    [end_cooldown] of its own is scheduled, never two; whoever has an
    [end_cooldown] scheduled is a player on cooldown; and a scheduled
    [destroy] belongs to an object that has exploded. *)
Theorem schedule_invariant (es : list Event) (w : World) :
  forallb clock_driven es = true ->
  run_events es empty_world = Some (tt, w) ->
  (forall p, pending_end_cooldown p (clock_items w)
             = (if cooldown_at w p then 1 else 0)%nat)
  /\ (forall p, (pending_end_cooldown p (clock_items w) <= 1)%nat)
  /\ (forall p t, In (t, end_cooldown_cb p) (clock_items w) ->
                  exists g k, lookup w p = Some (IPlayer g k true))
  /\ (forall a t, In (t, destroy_cb a) (clock_items w) -> exploded_at w a = true).
Proof.
  intros Hes H.
  pose proof (wf_steps es empty_world tt w Hes wf_empty H) as [W1 W2].
  split; [exact W1|]. split; [|split; [|exact W2]].
  - intros p. rewrite W1. destruct (cooldown_at w p); lia.
  - intros p t Hin. apply pending_of_In in Hin. rewrite W1 in Hin.
    unfold cooldown_at in Hin.
    destruct (lookup w p) as [[g0|g0|g0 k0 c0]|]; simpl in Hin; try congruence.
    destruct c0; [eauto|congruence].
Qed.

(** X11.  In such a world a tick of the clock never fails: every callback
    that is due finds its object and runs, time has advanced by [dt], and
    nothing that is due is left on the schedule. *)
Theorem clock_tick_runs (es : list Event) (w : World) (dt : Q) :
  forallb clock_driven es = true ->
  run_events es empty_world = Some (tt, w) ->
  exists w',
    clock_tick dt w = Some (tt, w')
    /\ clock_now w' = clock_now w + dt
    /\ (forall t cb, In (t, cb) (clock_items w') ->
                     In (t, cb) (clock_items w) /\ clock_now w' < t)
    /\ length (heap w') = length (heap w).
Proof.
  intros Hes H.
  pose proof (wf_steps es empty_world tt w Hes wf_empty H) as W.
  destruct (clock_tick_total w dt W) as [w' H'].
  exists w'. split; [exact H'|].
  unfold clock_tick in H'. apply run_callbacks_effect in H'.
  destruct H' as (N & I & _ & L & _). simpl in N, I, L.
  split; [exact N|]. split; [|exact L].
  intros t cb Hin. rewrite I in Hin. apply filter_In in Hin.
  destruct Hin as [Hin Hdue]. split; [exact Hin|].
  rewrite N. unfold is_due in Hdue. simpl in Hdue.
  apply negb_true_iff in Hdue.
  apply Qnot_le_lt. intros Hle. apply Qle_bool_iff in Hle. congruence.
Qed.

(** ** The bullet list *)

Lemma is_bullet_class i : class_of i = Bullet_class -> exists g, i = IBullet g.
Proof. destruct i; try discriminate. eauto. Qed.

Lemma fire_new_bullet a w u w' :
  fire a w = Some (u, w') ->
  exists g, lookup w' (length (heap w)) = Some (IBullet g).
Proof.
  intros H. apply fire_inv in H. destruct H as [g [k [c [_ ->]]]].
  eexists. unfold lookup. simpl.
  rewrite nth_error_app2, Nat.sub_diag; [reflexivity|lia].
Qed.

Lemma update_new_bullet a dt w u w' :
  Player_update a dt w = Some (u, w') ->
  fires w a = true ->
  exists g, lookup w' (length (heap w)) = Some (IBullet g).
Proof.
  intros H F. apply Player_update_inv in H. destruct H as [g [k [c [Hi H]]]].
  unfold fires in F. rewrite Hi in F.
  rewrite (Player_update_spec _ _ _ _ _ _ Hi) in H. cbv zeta in H.
  rewrite F in H. inversion H; subst w'. clear H.
  assert (Hlt : (a < length (heap w))%nat)
    by (apply nth_error_Some; unfold lookup in Hi; congruence).
  eexists. unfold lookup. simpl.
  rewrite nth_error_list_set_ne by lia.
  rewrite nth_error_app2 by (rewrite length_list_set; lia).
  rewrite length_list_set, Nat.sub_diag. reflexivity.
Qed.

Lemma bullets_ok_keep e w u w' :
  bullets_ok w ->
  run_event e w = Some (u, w') ->
  forall b, In b (window_bullets w) -> exists g, lookup w' b = Some (IBullet g).
Proof.
  intros [_ Hb] H b Hin.
  destruct (Hb b Hin) as [g Hg].
  pose proof (run_event_effect _ _ _ _ H) as (_ & _ & _ & _ & O).
  rewrite (O _ _ Hg).
  destruct (is_bullet_class (after_event e w b (IBullet g))) as [g' ->].
  - apply (after_event_grown e w b (IBullet g)).
  - eauto.
Qed.

Lemma bullets_ok_append w w' :
  bullets_ok w ->
  (forall b, In b (window_bullets w) -> exists g, lookup w' b = Some (IBullet g)) ->
  (exists g, lookup w' (length (heap w)) = Some (IBullet g)) ->
  window_bullets w' = window_bullets w ++ [length (heap w)] ->
  bullets_ok w'.
Proof.
  intros [Hnd Hb] Hkeep Hnew E. split.
  - rewrite E. apply NoDup_app.
    + exact Hnd.
    + constructor; [intros []|constructor].
    + intros b Hin [Hb'|[]]. subst b.
      destruct (Hb _ Hin) as [g Hg].
      assert (length (heap w) < length (heap w))%nat
        by (apply nth_error_Some; unfold lookup in Hg; congruence).
      lia.
  - intros b Hin. rewrite E in Hin. apply in_app_or in Hin.
    destruct Hin as [Hin|[<-|[]]]; [apply Hkeep; exact Hin|exact Hnew].
Qed.

Lemma bullets_ok_step e w u w' :
  bullets_ok w ->
  run_event e w = Some (u, w') ->
  bullets_ok w' /\ exists more, window_bullets w' = window_bullets w ++ more.
Proof.
  intros Hok H.
  pose proof (bullets_ok_keep e w u w' Hok H) as Hkeep.
  pose proof (run_event_effect _ _ _ _ H) as (_ & _ & B & _ & _).
  assert (Hsame : window_bullets w' = window_bullets w ->
                  bullets_ok w' /\ exists more, window_bullets w' = window_bullets w ++ more).
  { intros E. split.
    - destruct Hok as [Hnd _]. split; rewrite E; [exact Hnd|exact Hkeep].
    - exists []. rewrite app_nil_r. exact E. }
  assert (Hgrow : (exists g, lookup w' (length (heap w)) = Some (IBullet g)) ->
                  window_bullets w' = window_bullets w ++ [length (heap w)] ->
                  bullets_ok w' /\ exists more, window_bullets w' = window_bullets w ++ more).
  { intros Hnew E. split; [apply (bullets_ok_append w w' Hok Hkeep Hnew E)|eauto]. }
  destruct e; simpl in B; try (apply Hsame; exact B).
  - destruct (fires w a) eqn:F; [|apply Hsame; exact B].
    apply Hgrow; [|exact B]. simpl in H. apply (update_new_bullet a dt w u w' H F).
  - apply Hgrow; [|exact B]. simpl in H. apply (fire_new_bullet a w u w' H).
Qed.

Lemma bullets_ok_steps es : forall w u w',
  bullets_ok w ->
  run_events es w = Some (u, w') ->
  bullets_ok w' /\ exists more, window_bullets w' = window_bullets w ++ more.
Proof.
  induction es as [|e rest IH]; intros w u w' Hok H.
  - simpl in H. unfold ret in H. inversion H; subst.
    split; [exact Hok|]. exists []. rewrite app_nil_r. reflexivity.
  - apply run_events_cons in H. destruct H as [w1 [H1 H2]].
    destruct (bullets_ok_step e w tt w1 Hok H1) as [Hok1 [m1 E1]].
    destruct (IH w1 u w' Hok1 H2) as [Hok' [m2 E2]].
    split; [exact Hok'|]. exists (m1 ++ m2). rewrite E2, E1, app_assoc. reflexivity.
Qed.

(** X12.  The window's bullet list is append-only and clean: whatever
    happens, the list afterwards is the list before followed by the new
    bullets, it never names an object twice, and every address in it is a
    [Bullet], so that the window can call [update] on each of its
    elements. *)
Theorem bullet_list_invariant (es : list Event) (w w' : World) :
  bullets_ok w ->
  run_events es w = Some (tt, w') ->
  (exists more, window_bullets w' = window_bullets w ++ more)
  /\ NoDup (window_bullets w')
  /\ (forall b, In b (window_bullets w') ->
        exists g, lookup w' b = Some (IBullet g))
  /\ (forall b dt, In b (window_bullets w') ->
        exists w'', Bullet_update b dt w' = Some (tt, w'')).
Proof.
  intros Hok H.
  destruct (bullets_ok_steps es w tt w' Hok H) as [[Hnd Hb] Hmore].
  split; [exact Hmore|]. split; [exact Hnd|]. split; [exact Hb|].
  intros b dt Hin. destruct (Hb b Hin) as [g Hg].
  eexists. apply (Bullet_update_spec _ _ _ dt Hg).
Qed.

(** ** Exploding twice *)

(** X13.  [explode] is not guarded against a second call: the second call
    leaves the object exactly as the first one made it (same explosion
    sprite, same flags; [destroyed] is never changed by [explode]), but it
    schedules [destroy] once more, so that two callbacks are pending. *)
Theorem explode_twice (w : World) (a : addr) (i : Instance) :
  lookup w a = Some i ->
  exists w1 w2 i1,
    explode a w = Some (tt, w1)
    /\ explode a w1 = Some (tt, w2)
    /\ lookup w1 a = Some i1
    /\ heap w2 = heap w1
    /\ exploded (base i1) = true
    /\ destroyed (base i1) = destroyed (base i)
    /\ clock_items w2
       = clock_items w
         ++ [(clock_now w + explosion_time (class_of i), destroy_cb a);
             (clock_now w + explosion_time (class_of i), destroy_cb a)].
Proof.
  intros Ha.
  pose proof (explode_spec _ _ _ Ha) as H1.
  match type of H1 with _ = Some (tt, ?x) => set (w1 := x) in * end.
  set (i1 := set_base i (blown_up (class_of i) (base i))).
  assert (L1 : lookup w1 a = Some i1).
  { unfold w1, lookup. simpl. rewrite (nth_error_list_set_eqb _ a _ _ _ Ha), Nat.eqb_refl.
    reflexivity. }
  pose proof (explode_spec _ _ _ L1) as H2.
  assert (Hfix : set_base i1 (blown_up (class_of i1) (base i1)) = i1).
  { unfold i1. rewrite class_of_set_base, base_set_base, set_base_set_base.
    reflexivity. }
  rewrite Hfix in H2.
  eexists. eexists. exists i1.
  split; [exact H1|]. split; [exact H2|]. split; [exact L1|].
  simpl. split; [apply list_set_same; exact L1|].
  unfold i1. rewrite base_set_base. simpl.
  split; [reflexivity|]. split; [reflexivity|].
  rewrite <- app_assoc. reflexivity.
Qed.


(** ** A player and its own bullets *)

Lemma Player_update_shot w p g k dt :
  lookup w p = Some (IPlayer g k false) ->
  k fire_key = true ->
  exists w',
    Player_update p dt w = Some (tt, w')
    /\ lookup w' p = Some (IPlayer (steered k g dt) k true)
    /\ lookup w' (length (heap w)) = Some (IBullet (bullet_of (steered k g dt)))
    /\ window_bullets w' = window_bullets w ++ [length (heap w)].
Proof.
  intros H Hk.
  pose proof (Player_update_spec _ _ _ _ _ dt H) as S. cbv zeta in S.
  rewrite Hk in S. simpl in S.
  destruct (Player_update_runs w p g k false dt H) as [w' [R L]].
  rewrite Hk in L. simpl in L.
  rewrite R in S. inversion S as [Hw]. clear S.
  assert (Hlt : (p < length (heap w))%nat)
    by (apply nth_error_Some; unfold lookup in H; congruence).
  exists w'. split; [exact R|]. split; [exact L|]. split.
  - rewrite Hw. unfold lookup. simpl.
    rewrite nth_error_list_set_ne by lia.
    rewrite nth_error_app2 by (rewrite length_list_set; lia).
    rewrite length_list_set, Nat.sub_diag. reflexivity.
  - rewrite Hw. simpl. rewrite length_list_set. reflexivity.
Qed.


(** X14.  A player can shoot as soon as it exists: a new player stands at
    (20, 20) with both flags and the cooldown off, and its first update
    with the fire key held puts one bullet on the window's list and the
    player on cooldown; with no arrow held (or both) the bullet leaves at
    x = 20 + half the width of the player image. *)
Theorem new_player_fires_at_once (w : World) (k : KeyStateHandler) (dt : Q) :
  k fire_key = true ->
  exists w1 w2 w3 g3 bg,
    Player_init w = Some (length (heap w), w1)
    /\ lookup w1 (length (heap w))
       = Some (IPlayer (mkGameObject (mkSprite player_png 20 20 1) false false)
                       (fun _ => false) false)
    /\ window_bullets w1 = window_bullets w
    /\ clock_items w1 = clock_items w
    /\ set_keys (length (heap w)) k w1 = Some (tt, w2)
    /\ Player_update (length (heap w)) dt w2 = Some (tt, w3)
    /\ lookup w3 (length (heap w)) = Some (IPlayer g3 k true)
    /\ window_bullets w3 = window_bullets w ++ [S (length (heap w))]
    /\ lookup w3 (S (length (heap w))) = Some (IBullet bg)
    /\ sprite_y (sprite bg) = img_height player_png + img_height bullet_png * 0.2
    /\ (k left_key = k right_key ->
        sprite_x (sprite bg) == 20 + img_width player_png / 2).
Proof.
  intros Hk.
  set (p := length (heap w)).
  set (g0 := mkGameObject (mkSprite player_png 20 20 1) false false).
  set (w1 := mkWorld (clock_now w) (clock_items w)
                     (heap w ++ [IPlayer g0 (fun _ => false) false])
                     (window_bullets w)).
  assert (L1 : lookup w1 p = Some (IPlayer g0 (fun _ => false) false)).
  { unfold lookup, w1, p. simpl.
    rewrite nth_error_app2 by lia. rewrite Nat.sub_diag. reflexivity. }
  pose proof (set_keys_spec w1 p g0 (fun _ => false) false k L1) as K.
  match type of K with _ = Some (tt, ?x) => set (w2 := x) in * end.
  assert (L2 : lookup w2 p = Some (IPlayer g0 k false))
    by (apply (lookup_after_set _ _ _ _ L1)).
  destruct (Player_update_shot w2 p g0 k dt L2 Hk) as (w3 & R & L3 & Lb & B).
  assert (Len : length (heap w2) = S p).
  { unfold w2. simpl. rewrite length_list_set. unfold w1. simpl.
    rewrite length_app. simpl. unfold p. lia. }
  rewrite Len in Lb, B.
  exists w1, w2, w3, (steered k g0 dt), (bullet_of (steered k g0 dt)).
  split; [reflexivity|]. split; [exact L1|].
  split; [reflexivity|]. split; [reflexivity|].
  split; [exact K|]. split; [exact R|]. split; [exact L3|].
  split; [exact B|]. split; [exact Lb|]. split; [reflexivity|].
  intros E. rewrite (steered_idle k g0 dt E).
  unfold bullet_of, g0, sprite_width. simpl. field.
Qed.


End Game.

(** * The statements on the concrete scenes *)

Lemma has_hit_strictly_inside_witness :
  lookup hit_world 0%nat = Some (IGameObject (demo_object demo_box_png 5 5))
  /\ lookup hit_world 1%nat = Some (IGameObject (demo_object demo_box_png 0 0))
  /\ exists w', has_hit 0%nat 1%nat hit_world = Some (true, w').
Proof.
  split; [reflexivity|]. split; [reflexivity|].
  destruct (has_hit_strictly_inside hit_world 0%nat 1%nat _ _ eq_refl eq_refl)
    as [r [w' [H [Hiff _]]]].
  exists w'. rewrite H.
  assert (Hr : r = true) by (apply Hiff; repeat split; reflexivity).
  rewrite Hr. reflexivity.
Defined.

Lemma has_hit_pure_witness :
  has_hit 2%nat 1%nat hit_world = Some (false, hit_world)
  /\ forall w2, lookup w2 2%nat = lookup hit_world 2%nat ->
                lookup w2 1%nat = lookup hit_world 1%nat ->
                has_hit 2%nat 1%nat w2 = Some (false, w2).
Proof.
  split; [reflexivity|].
  apply (has_hit_pure hit_world 2%nat 1%nat false hit_world eq_refl).
Defined.

(** P5 of the specification, computed. *)
Example hit_inside : has_hit 0%nat 1%nat hit_world = Some (true, hit_world).
Proof. reflexivity. Qed.

Example hit_on_boundary : has_hit 2%nat 1%nat hit_world = Some (false, hit_world).
Proof. reflexivity. Qed.

Lemma player_update_movement_witness :
  lookup player_world_2 0%nat
    = Some (IPlayer (demo_object demo_player_png 7 300) both_arrows true)
  /\ exists w' g' c',
       Player_update demo_player_png demo_bullet_png 0%nat 0.25 player_world_2
         = Some (tt, w')
       /\ lookup w' 0%nat = Some (IPlayer g' both_arrows c')
       /\ sprite_x (sprite g') = 7.
Proof.
  split; [reflexivity|].
  destruct (player_update_movement demo_player_png demo_bullet_png demo_explosion_png
              player_world_2 0%nat _ both_arrows true 0.25 eq_refl)
    as (w' & g' & c' & H & L & _ & Hboth & _).
  exists w', g', c'. split; [exact H|]. split; [exact L|].
  apply (Hboth eq_refl eq_refl).
Defined.

Example player_moves_left :
  option_map (fun r => lookup (snd r) 0%nat)
    (Player_update demo_player_png demo_bullet_png 0%nat 0.5 player_world)
  = Some (Some (IPlayer (demo_object demo_player_png (100 + - (150) * 0.5) 20) demo_keys true)).
Proof. reflexivity. Qed.

Lemma fire_appends_one_bullet_witness :
  lookup player_world 0%nat
    = Some (IPlayer (demo_object demo_player_png 100 20) demo_keys false)
  /\ exists w' bg,
       fire demo_player_png demo_bullet_png 0%nat player_world = Some (tt, w')
       /\ window_bullets w' = [1%nat]
       /\ lookup w' 1%nat = Some (IBullet bg)
       /\ sprite_x (sprite bg) == 120
       /\ sprite_y (sprite bg) == 40.
Proof.
  split; [reflexivity|].
  destruct (fire_appends_one_bullet demo_player_png demo_bullet_png
              player_world 0%nat _ demo_keys false eq_refl)
    as (w' & b & bg & H & HB & _ & L & _ & _ & _ & Hx & Hy & _).
  pose proof H as H'. vm_compute in H'. inversion H' as [Hw]. clear H'.
  assert (Hb : b = 1%nat).
  { rewrite <- Hw in HB. simpl in HB. inversion HB. reflexivity. }
  subst b.
  exists w', bg. split; [exact H|]. split; [exact HB|]. split; [exact L|].
  split; [apply Hx; reflexivity|].
  rewrite Hy. reflexivity.
Defined.

Lemma bullet_spawn_height_constant_witness :
  lookup player_world 0%nat
    = Some (IPlayer (demo_object demo_player_png 100 20) demo_keys false)
  /\ lookup player_world_2 0%nat
    = Some (IPlayer (demo_object demo_player_png 7 300) both_arrows true)
  /\ exists w1' w2' b1 b2,
       fire demo_player_png demo_bullet_png 0%nat player_world = Some (tt, w1')
       /\ fire demo_player_png demo_bullet_png 0%nat player_world_2 = Some (tt, w2')
       /\ lookup w1' 1%nat = Some (IBullet b1)
       /\ lookup w2' 1%nat = Some (IBullet b2)
       /\ sprite_y (sprite b1) = sprite_y (sprite b2).
Proof.
  split; [reflexivity|]. split; [reflexivity|].
  destruct (bullet_spawn_height_constant demo_player_png demo_bullet_png
              player_world player_world_2 0%nat 0%nat _ _ _ _ _ _ eq_refl eq_refl)
    as (w1' & w2' & b1 & b2 & H1 & H2 & L1 & L2 & Hy & _).
  exists w1', w2', b1, b2. auto.
Defined.

Lemma bullet_update_ascends_witness :
  lookup bullet_world 0%nat
    = Some (IBullet (mkGameObject (mkSprite demo_bullet_png 120 100000 0.2) false false))
  /\ exists w' g',
       Bullet_update 0%nat 1 bullet_world = Some (tt, w')
       /\ lookup w' 0%nat = Some (IBullet g')
       /\ sprite_y (sprite g') - 100000 == 180
       /\ sprite_x (sprite g') = 120
       /\ destroyed g' = false
       /\ clock_items w' = [].
Proof.
  split; [reflexivity|].
  destruct (bullet_update_ascends demo_player_png demo_bullet_png demo_explosion_png
              bullet_world 0%nat _ 1 eq_refl)
    as (w' & g' & H & L & _ & _ & Hone & _ & Hx & _ & Hd & Hi & _).
  exists w', g'. split; [exact H|]. split; [exact L|].
  split; [apply Hone; reflexivity|]. auto.
Defined.

Lemma flags_never_reset_witness :
  lookup hit_world 1%nat = Some (IGameObject (demo_object demo_box_png 0 0))
  /\ exists w',
       run_events demo_player_png demo_bullet_png demo_explosion_png
         [EvDestroy 1%nat; EvExplode 1%nat; EvDraw 1%nat; EvTick 1; EvHasHit 0%nat 1%nat; EvNewPlayer]
         hit_world = Some (tt, w')
       /\ exists w1, destroy 1%nat hit_world = Some (tt, w1)
            /\ destroyed_at w1 1%nat = true
            /\ destroy 1%nat w1 = Some (tt, w1).
Proof.
  split; [reflexivity|].
  eexists. split; [vm_compute; reflexivity|].
  destruct (flags_never_reset demo_player_png demo_bullet_png demo_explosion_png
              [EvDestroy 1%nat; EvExplode 1%nat; EvDraw 1%nat; EvTick 1; EvHasHit 0%nat 1%nat; EvNewPlayer]
              hit_world _ 1%nat _ eq_refl eq_refl)
    as (_ & w1 & H1 & D1 & _ & I1).
  exists w1. auto.
Defined.

Lemma size_changes_only_by_explode_witness :
  lookup hit_world 1%nat = Some (IGameObject (demo_object demo_box_png 0 0))
  /\ exists w',
       run_events demo_player_png demo_bullet_png demo_explosion_png
         [EvDestroy 1%nat; EvExplode 0%nat; EvDraw 1%nat; EvTick 1; EvHasHit 0%nat 1%nat; EvNewPlayer]
         hit_world = Some (tt, w')
       /\ exists i', lookup w' 1%nat = Some i'
            /\ sprite_width (sprite (base i')) = 10 * 1
            /\ sprite_height (sprite (base i')) = 10 * 1.
Proof.
  split; [reflexivity|].
  eexists. split; [vm_compute; reflexivity|].
  destruct (size_changes_only_by_explode demo_player_png demo_bullet_png demo_explosion_png
              [EvDestroy 1%nat; EvExplode 0%nat; EvDraw 1%nat; EvTick 1; EvHasHit 0%nat 1%nat; EvNewPlayer]
              hit_world _ 1%nat _ eq_refl eq_refl)
    as (Hsame & _).
  apply (Hsame eq_refl).
Defined.

(** C6 as stated fails: the 10x10 box at the origin becomes 64 wide and 64
    high when it explodes, and the object anchored at (30, 5), which did not
    hit it before, hits it afterwards. *)
Lemma explode_changes_size :
  exists w1 i1,
    explode demo_explosion_png 1%nat hit_world = Some (tt, w1)
    /\ lookup hit_world 1%nat = Some (IGameObject (demo_object demo_box_png 0 0))
    /\ lookup w1 1%nat = Some i1
    /\ sprite_width (sprite (demo_object demo_box_png 0 0)) == 10
    /\ sprite_height (sprite (demo_object demo_box_png 0 0)) == 10
    /\ sprite_width (sprite (base i1)) == 64
    /\ sprite_height (sprite (base i1)) == 64
    /\ ~ sprite_width (sprite (base i1)) == sprite_width (sprite (demo_object demo_box_png 0 0))
    /\ has_hit 3%nat 1%nat hit_world = Some (false, hit_world)
    /\ has_hit 3%nat 1%nat w1 = Some (true, w1).
Proof.
  eexists. eexists. split; [vm_compute; reflexivity|].
  split; [reflexivity|]. split; [reflexivity|].
  repeat split; try reflexivity.
  intros H. vm_compute in H. discriminate H.
Defined.

Lemma cooldown_gates_fire_witness :
  wf player_world
  /\ lookup player_world 0%nat
     = Some (IPlayer (demo_object demo_player_png 100 20) demo_keys false)
  /\ demo_keys fire_key = true
  /\ exists w1 b,
       Player_update demo_player_png demo_bullet_png 0%nat 0.1 player_world = Some (tt, w1)
       /\ window_bullets w1 = window_bullets player_world ++ [b]
       /\ cooldown_at w1 0%nat = true
       /\ (exists w2,
            run_events demo_player_png demo_bullet_png demo_explosion_png
              (frames 0%nat [0.1; 0.1; 0.1; 0.1]) w1 = Some (tt, w2)
            /\ (clock_now w2 < clock_now player_world + cooldown_time ->
                window_bullets w2 = window_bullets w1 /\ cooldown_at w2 0%nat = true))
       /\ exists w2 w3 g3 k3,
            run_events demo_player_png demo_bullet_png demo_explosion_png
              (frames 0%nat [0.1; 0.1; 0.1; 0.1]) w1 = Some (tt, w2)
            /\ clock_now w2 < clock_now player_world + cooldown_time
            /\ clock_tick 0.1 w2 = Some (tt, w3)
            /\ lookup w3 0%nat = Some (IPlayer g3 k3 false)
            /\ window_bullets w3 = window_bullets w1.
Proof.
  assert (W : wf player_world) by (apply wf_quiet; reflexivity).
  split; [exact W|]. split; [reflexivity|]. split; [reflexivity|].
  destruct (cooldown_gates_fire demo_player_png demo_bullet_png demo_explosion_png
              player_world 0%nat _ demo_keys 0.1 W eq_refl eq_refl)
    as (w1 & b & H1 & HB & _ & _ & C1 & _ & _ & _ & _ & Hframes & _ & _ & Hrelease).
  exists w1, b. split; [exact H1|]. split; [exact HB|]. split; [exact C1|].
  split; [apply (Hframes [0.1; 0.1; 0.1; 0.1] eq_refl)|].
  assert (H2 : exists w2,
             run_events demo_player_png demo_bullet_png demo_explosion_png
               (frames 0%nat [0.1; 0.1; 0.1; 0.1]) w1 = Some (tt, w2)
             /\ clock_now w2 < clock_now player_world + cooldown_time
             /\ clock_now player_world + cooldown_time <= clock_now w2 + 0.1).
  { pose proof H1 as H1'. vm_compute in H1'. injection H1' as Hw1.
    rewrite <- Hw1. eexists. split; [vm_compute; reflexivity|].
    split; [vm_compute; reflexivity|vm_compute; discriminate]. }
  destruct H2 as (w2 & H2 & Hlt & Hge).
  destruct (Hrelease (frames 0%nat [0.1; 0.1; 0.1; 0.1]) w2 0.1 eq_refl H2 Hlt Hge)
    as (w3 & g3 & k3 & H3 & L3 & B3 & _).
  exists w2, w3, g3, k3.
  split; [exact H2|]. split; [exact Hlt|]. split; [exact H3|].
  split; [exact L3|exact B3].
Defined.

(** P1 of the specification, computed: with the fire key held in every
    frame, four frames of 0.1 s after the shot there is still one bullet;
    the frame that reaches 0.5 s releases the cooldown and fires again. *)
Example one_bullet_before_cooldown_ends :
  option_map (fun r => (Qred (clock_now (snd r)), window_bullets (snd r)))
    (run_events demo_player_png demo_bullet_png demo_explosion_png
       (EvPlayerUpdate 0%nat 0.1 :: frames 0%nat [0.1; 0.1; 0.1; 0.1]) player_world)
  = Some (2 # 5, [1%nat]).
Proof. vm_compute. reflexivity. Qed.

Example second_bullet_when_cooldown_ends :
  option_map (fun r => (Qred (clock_now (snd r)), window_bullets (snd r)))
    (run_events demo_player_png demo_bullet_png demo_explosion_png
       (EvPlayerUpdate 0%nat 0.1 :: frames 0%nat [0.1; 0.1; 0.1; 0.1; 0.1]) player_world)
  = Some (1 # 2, [1%nat; 2%nat]).
Proof. vm_compute. reflexivity. Qed.

Lemma explode_then_destroy_witness :
  wf hit_world
  /\ lookup hit_world 1%nat = Some (IGameObject (demo_object demo_box_png 0 0))
  /\ exists w1,
       explode demo_explosion_png 1%nat hit_world = Some (tt, w1)
       /\ exploded_at w1 1%nat = true
       /\ destroyed_at w1 1%nat = false
       /\ exists w2,
            run_events demo_player_png demo_bullet_png demo_explosion_png
              (ticks [0.05; 0.1; 0.05]) w1 = Some (tt, w2)
            /\ (clock_now hit_world + 0.2 <= clock_now w2 -> destroyed_at w2 1%nat = true)
            /\ (clock_now w2 < clock_now hit_world + 0.2 -> destroyed_at w2 1%nat = false).
Proof.
  assert (W : wf hit_world) by (apply wf_quiet; reflexivity).
  split; [exact W|]. split; [reflexivity|].
  destruct (explode_then_destroy demo_player_png demo_bullet_png demo_explosion_png
              hit_world 1%nat _ W eq_refl)
    as (w1 & H1 & E1 & D1 & _ & _ & _ & _ & _ & Hticks).
  exists w1. split; [exact H1|]. split; [exact E1|]. split; [exact D1|].
  destruct (Hticks [0.05; 0.1; 0.05] eq_refl) as (w2 & H2 & _ & Hge & Hlt).
  exists w2. split; [exact H2|]. split; [exact Hge|].
  exact (Hlt eq_refl eq_refl).
Defined.

(** C3 as stated fails, for [explode] has no guard.  The box explodes at
    time 0 and is exploded again at time T = 0.1: the [destroy] of the
    first explosion fires at 0.2, inside [T, T + 0.2), where the claim has
    the object not destroyed.  Likewise an object that was destroyed before
    the call is destroyed throughout, and a direct [destroy] during the
    explosion is not held back. *)
Lemma explode_does_not_postpone_destroy :
  (exists w1 w2 w3,
     run_events demo_player_png demo_bullet_png demo_explosion_png
       [EvExplode 1%nat; EvTick 0.1] hit_world = Some (tt, w1)
     /\ clock_now w1 == 0.1
     /\ destroyed_at w1 1%nat = false
     /\ explode demo_explosion_png 1%nat w1 = Some (tt, w2)
     /\ clock_tick 0.1 w2 = Some (tt, w3)
     /\ clock_now w1 <= clock_now w3
     /\ clock_now w3 < clock_now w1 + explosion_time GameObject_class
     /\ destroyed_at w3 1%nat = true)
  /\ (exists w1 w2,
        destroy 1%nat hit_world = Some (tt, w1)
        /\ explode demo_explosion_png 1%nat w1 = Some (tt, w2)
        /\ clock_now w2 < clock_now w1 + explosion_time GameObject_class
        /\ destroyed_at w2 1%nat = true)
  /\ (exists w1 w2,
        explode demo_explosion_png 1%nat hit_world = Some (tt, w1)
        /\ destroyed_at w1 1%nat = false
        /\ destroy 1%nat w1 = Some (tt, w2)
        /\ clock_now w2 < clock_now hit_world + explosion_time GameObject_class
        /\ destroyed_at w2 1%nat = true).
Proof.
  split; [|split].
  - eexists. eexists. eexists.
    split; [vm_compute; reflexivity|].
    split; [vm_compute; reflexivity|].
    split; [vm_compute; reflexivity|].
    split; [vm_compute; reflexivity|].
    split; [vm_compute; reflexivity|].
    split; [vm_compute; discriminate|].
    split; vm_compute; reflexivity.
  - eexists. eexists.
    split; [vm_compute; reflexivity|].
    split; [vm_compute; reflexivity|].
    split; vm_compute; reflexivity.
  - eexists. eexists.
    split; [vm_compute; reflexivity|].
    split; [vm_compute; reflexivity|].
    split; [vm_compute; reflexivity|].
    split; vm_compute; reflexivity.
Defined.

(** P4 of the specification, computed: not destroyed 0.15 s after the
    explosion, destroyed by the tick that reaches 0.2 s. *)
Example alive_during_explosion :
  option_map (fun r => (Qred (clock_now (snd r)), destroyed_at (snd r) 1%nat))
    (run_events demo_player_png demo_bullet_png demo_explosion_png
       (EvExplode 1%nat :: ticks [0.05; 0.1]) hit_world)
  = Some (3 # 20, false).
Proof. vm_compute. reflexivity. Qed.

Example destroyed_after_explosion :
  option_map (fun r => (Qred (clock_now (snd r)), destroyed_at (snd r) 1%nat))
    (run_events demo_player_png demo_bullet_png demo_explosion_png
       (EvExplode 1%nat :: ticks [0.05; 0.1; 0.05]) hit_world)
  = Some (1 # 5, true).
Proof. vm_compute. reflexivity. Qed.

(** * The further statements on the concrete scenes *)

Lemma has_hit_never_self_witness :
  lookup hit_world 0%nat = Some (IGameObject (demo_object demo_box_png 5 5))
  /\ lookup hit_world 2%nat = Some (IGameObject (demo_object demo_box_png 10 5))
  /\ has_hit 0%nat 0%nat hit_world = Some (false, hit_world)
  /\ has_hit 0%nat 2%nat hit_world = Some (false, hit_world).
Proof.
  split; [reflexivity|]. split; [reflexivity|].
  destruct (has_hit_never_self hit_world 0%nat 2%nat _ _ eq_refl eq_refl) as [Hself Hsame].
  split; [exact Hself|]. apply Hsame. right. reflexivity.
Defined.

Lemma has_hit_degenerate_target_witness :
  lookup flat_world 0%nat = Some (IGameObject (demo_object demo_box_png 5 5))
  /\ lookup flat_world 1%nat
     = Some (IGameObject (mkGameObject (mkSprite demo_box_png 0 0 0) false false))
  /\ has_hit 0%nat 1%nat flat_world = Some (false, flat_world).
Proof.
  split; [reflexivity|]. split; [reflexivity|].
  apply (has_hit_degenerate_target flat_world 0%nat 1%nat _ _ eq_refl eq_refl).
  left. vm_compute. discriminate.
Defined.

Lemma has_hit_ignores_destroyed_witness :
  has_hit 0%nat 1%nat hit_world = Some (true, hit_world)
  /\ exists w1,
       destroy 1%nat hit_world = Some (tt, w1)
       /\ destroyed_at w1 1%nat = true
       /\ has_hit 0%nat 1%nat w1 = Some (true, w1).
Proof.
  split; [reflexivity|].
  apply (has_hit_ignores_destroyed demo_player_png demo_bullet_png demo_explosion_png
           hit_world 0%nat 1%nat 1%nat true eq_refl).
  right. reflexivity.
Defined.

Lemma bullet_never_hits_witness :
  lookup shoot_world 0%nat
    = Some (IBullet (mkGameObject (mkSprite demo_bullet_png 120 40 0.2) false false))
  /\ lookup shoot_world 1%nat = Some (IGameObject (demo_object demo_box_png 0 0))
  /\ exists w',
       run_events demo_player_png demo_bullet_png demo_explosion_png
         (Bullet_updates 0%nat [0.5; 0; 2]) shoot_world = Some (tt, w')
       /\ has_hit 0%nat 1%nat w' = Some (false, w').
Proof.
  split; [reflexivity|]. split; [reflexivity|].
  apply (bullet_never_hits demo_player_png demo_bullet_png demo_explosion_png
           shoot_world 0%nat 1%nat _ _ [0.5; 0; 2] eq_refl eq_refl).
  - discriminate.
  - repeat constructor; discriminate.
  - right. left. vm_compute. discriminate.
Defined.

Lemma player_update_idle_witness :
  lookup player_world_2 0%nat
    = Some (IPlayer (demo_object demo_player_png 7 300) both_arrows true)
  /\ both_arrows left_key = both_arrows right_key
  /\ Player_update demo_player_png demo_bullet_png 0%nat 0.25 player_world_2
     = Some (tt, player_world_2).
Proof.
  split; [reflexivity|]. split; [reflexivity|].
  apply (player_update_idle demo_player_png demo_bullet_png
           player_world_2 0%nat _ both_arrows true 0.25 eq_refl eq_refl).
  right. reflexivity.
Defined.

Lemma fire_after_move_witness :
  lookup player_world 0%nat
    = Some (IPlayer (demo_object demo_player_png 100 20) demo_keys false)
  /\ demo_keys fire_key = true
  /\ exists w' g' bg,
       Player_update demo_player_png demo_bullet_png 0%nat 0.1 player_world = Some (tt, w')
       /\ lookup w' 0%nat = Some (IPlayer g' demo_keys true)
       /\ lookup w' 1%nat = Some (IBullet bg)
       /\ sprite_x (sprite bg) == 105.
Proof.
  split; [reflexivity|]. split; [reflexivity|].
  destruct (fire_after_move demo_player_png demo_bullet_png demo_explosion_png
              player_world 0%nat _ demo_keys 0.1 eq_refl eq_refl)
    as (w' & g' & bg & R & L & Lb & _ & Hleft & _).
  exists w', g', bg. split; [exact R|]. split; [exact L|]. split; [exact Lb|].
  rewrite (Hleft eq_refl eq_refl). reflexivity.
Defined.

Lemma cooldown_released_witness :
  lookup player_world 0%nat
    = Some (IPlayer (demo_object demo_player_png 100 20) demo_keys false)
  /\ demo_keys fire_key = true
  /\ exists w1 w2 g2 k2,
       Player_update demo_player_png demo_bullet_png 0%nat 0.1 player_world = Some (tt, w1)
       /\ cooldown_at w1 0%nat = true
       /\ run_events demo_player_png demo_bullet_png demo_explosion_png
            (ticks [0.25; 0.25]) w1 = Some (tt, w2)
       /\ lookup w2 0%nat = Some (IPlayer g2 k2 false).
Proof.
  split; [reflexivity|]. split; [reflexivity|].
  destruct (cooldown_released demo_player_png demo_bullet_png demo_explosion_png
              player_world 0%nat _ demo_keys 0.1 eq_refl eq_refl)
    as (w1 & H1 & C1 & Hrel).
  pose proof H1 as H1'. vm_compute in H1'. inversion H1' as [Hw1]. clear H1'.
  assert (H2 : exists w2,
             run_events demo_player_png demo_bullet_png demo_explosion_png
               (ticks [0.25; 0.25]) w1 = Some (tt, w2)
             /\ clock_now player_world + cooldown_time <= clock_now w2).
  { rewrite <- Hw1. eexists. split; [vm_compute; reflexivity|]. vm_compute. discriminate. }
  destruct H2 as (w2 & H2 & Hnow).
  destruct (Hrel (ticks [0.25; 0.25]) w2 eq_refl H2 Hnow) as (g2 & k2 & L2 & _).
  exists w1, w2, g2, k2. auto.
Defined.

Lemma schedule_invariant_witness :
  exists w,
    run_events demo_player_png demo_bullet_png demo_explosion_png
      [EvNewPlayer; EvKeys 0%nat demo_keys; EvPlayerUpdate 0%nat 0.1;
       EvExplode 1%nat; EvTick 0.1; EvPlayerUpdate 0%nat 0.1]
      empty_world = Some (tt, w)
    /\ (forall p, pending_end_cooldown p (clock_items w)
                  = (if cooldown_at w p then 1 else 0)%nat)
    /\ (forall a t, In (t, destroy_cb a) (clock_items w) -> exploded_at w a = true).
Proof.
  assert (R : { w | run_events demo_player_png demo_bullet_png demo_explosion_png
                      [EvNewPlayer; EvKeys 0%nat demo_keys; EvPlayerUpdate 0%nat 0.1;
                       EvExplode 1%nat; EvTick 0.1; EvPlayerUpdate 0%nat 0.1]
                      empty_world = Some (tt, w) })
    by (eexists; vm_compute; reflexivity).
  destruct R as [w R]. exists w. split; [exact R|].
  destruct (schedule_invariant demo_player_png demo_bullet_png demo_explosion_png
              [EvNewPlayer; EvKeys 0%nat demo_keys; EvPlayerUpdate 0%nat 0.1;
               EvExplode 1%nat; EvTick 0.1; EvPlayerUpdate 0%nat 0.1]
              w eq_refl R) as (Hp & _ & _ & Hd).
  split; [exact Hp|exact Hd].
Defined.

Lemma clock_tick_runs_witness :
  exists w w',
    run_events demo_player_png demo_bullet_png demo_explosion_png
      [EvNewPlayer; EvKeys 0%nat demo_keys; EvPlayerUpdate 0%nat 0.1;
       EvExplode 1%nat; EvTick 0.1; EvPlayerUpdate 0%nat 0.1]
      empty_world = Some (tt, w)
    /\ clock_tick 1 w = Some (tt, w')
    /\ clock_now w' = clock_now w + 1
    /\ length (heap w') = length (heap w).
Proof.
  assert (R : { w | run_events demo_player_png demo_bullet_png demo_explosion_png
                      [EvNewPlayer; EvKeys 0%nat demo_keys; EvPlayerUpdate 0%nat 0.1;
                       EvExplode 1%nat; EvTick 0.1; EvPlayerUpdate 0%nat 0.1]
                      empty_world = Some (tt, w) })
    by (eexists; vm_compute; reflexivity).
  destruct R as [w R].
  destruct (clock_tick_runs demo_player_png demo_bullet_png demo_explosion_png
              [EvNewPlayer; EvKeys 0%nat demo_keys; EvPlayerUpdate 0%nat 0.1;
               EvExplode 1%nat; EvTick 0.1; EvPlayerUpdate 0%nat 0.1]
              w 1 eq_refl R) as (w' & T & N & _ & L).
  exists w, w'. split; [exact R|]. split; [exact T|]. split; [exact N|exact L].
Defined.

Lemma bullet_list_invariant_witness :
  bullets_ok player_world
  /\ exists w',
       run_events demo_player_png demo_bullet_png demo_explosion_png
         (EvPlayerUpdate 0%nat 0.1 :: EvExplode 1%nat
            :: frames 0%nat [0.1; 0.1; 0.1; 0.1; 0.1])
         player_world = Some (tt, w')
       /\ NoDup (window_bullets w')
       /\ forall b dt, In b (window_bullets w') ->
            exists w'', Bullet_update b dt w' = Some (tt, w'').
Proof.
  assert (Hok : bullets_ok player_world).
  { split; [constructor|intros b []]. }
  split; [exact Hok|].
  assert (R : { w' | run_events demo_player_png demo_bullet_png demo_explosion_png
                       (EvPlayerUpdate 0%nat 0.1 :: EvExplode 1%nat
                          :: frames 0%nat [0.1; 0.1; 0.1; 0.1; 0.1])
                       player_world = Some (tt, w') })
    by (eexists; vm_compute; reflexivity).
  destruct R as [w' R]. exists w'. split; [exact R|].
  destruct (bullet_list_invariant demo_player_png demo_bullet_png demo_explosion_png
              (EvPlayerUpdate 0%nat 0.1 :: EvExplode 1%nat
                 :: frames 0%nat [0.1; 0.1; 0.1; 0.1; 0.1])
              player_world w' Hok R) as (_ & Hnd & _ & Hupd).
  split; [exact Hnd|exact Hupd].
Defined.

Lemma explode_twice_witness :
  lookup hit_world 1%nat = Some (IGameObject (demo_object demo_box_png 0 0))
  /\ exists w1 w2,
       explode demo_explosion_png 1%nat hit_world = Some (tt, w1)
       /\ explode demo_explosion_png 1%nat w1 = Some (tt, w2)
       /\ heap w2 = heap w1
       /\ length (clock_items w2) = 2%nat.
Proof.
  split; [reflexivity|].
  destruct (explode_twice demo_explosion_png hit_world 1%nat _ eq_refl)
    as (w1 & w2 & i1 & H1 & H2 & _ & Hh & _ & _ & Hi).
  exists w1, w2. split; [exact H1|]. split; [exact H2|]. split; [exact Hh|].
  rewrite Hi. reflexivity.
Defined.

Lemma new_player_fires_at_once_witness :
  demo_keys fire_key = true
  /\ exists w1 w2 w3 g3 bg,
       Player_init demo_player_png demo_bullet_png empty_world = Some (0%nat, w1)
       /\ set_keys 0%nat demo_keys w1 = Some (tt, w2)
       /\ Player_update demo_player_png demo_bullet_png 0%nat 0.1 w2 = Some (tt, w3)
       /\ lookup w3 0%nat = Some (IPlayer g3 demo_keys true)
       /\ window_bullets w3 = [1%nat]
       /\ lookup w3 1%nat = Some (IBullet bg)
       /\ sprite_y (sprite bg) == 40.
Proof.
  split; [reflexivity|].
  destruct (new_player_fires_at_once demo_player_png demo_bullet_png
              demo_explosion_png empty_world demo_keys 0.1 eq_refl)
    as (w1 & w2 & w3 & g3 & bg & I & _ & _ & _ & K & R & L & B & Lb & Y & _).
  exists w1, w2, w3, g3, bg.
  split; [exact I|]. split; [exact K|]. split; [exact R|]. split; [exact L|].
  split; [exact B|]. split; [exact Lb|]. rewrite Y. reflexivity.
Defined.

